(** * GeometryExplorer: scene lifecycle and resource management

    A shallow embedding of [src/components/GeometryExplorer/GeometryExplorer.tsx].

    The component is a React function component that drives a three.js scene.
    Its code is a handful of effects and callbacks that mutate objects shared
    by reference (refs, the mesh, the material, the scene) and call into the
    host (three.js, the DOM, [localStorage], [requestAnimationFrame]).  The
    embedding therefore threads one explicit [World] through every statement:

    - three.js objects live in a heap [gmap nat Obj], addressed by object
      identity, so aliasing (the mesh's geometry, the variables captured by
      the cleanup closure) is modelled as in JavaScript;
    - every call that leaves the component is appended to a chronological
      [trace], which is what ordering properties are stated on;
    - JavaScript numbers are modelled as exact rationals [Q] (so [0.01] is
      [1/100]); floating-point rounding is outside the model. *)

From Stdlib Require Import QArith.
From stdpp Require Import gmap strings list fin_maps.

Local Open Scope nat_scope.

(** ** The three.js objects the component creates *)

Module THREE.

(** Constructor calls [new THREE.XGeometry(...)], with the arguments in
    the order of the three.js signatures. *)
Inductive BufferGeometry : Type :=
| BoxGeometry (width height depth : Q)
| SphereGeometry (radius : Q) (widthSegments heightSegments : nat)
| PlaneGeometry (width height : Q)
| ConeGeometry (radius height : Q) (radialSegments : nat)
| CylinderGeometry (radiusTop radiusBottom height : Q) (radialSegments : nat)
| TorusGeometry (radius tube : Q) (radialSegments tubularSegments : nat)
| TorusKnotGeometry (radius tube : Q) (tubularSegments radialSegments : nat)
| CircleGeometry (radius : Q) (segments : nat)
| RingGeometry (innerRadius outerRadius : Q) (thetaSegments : nat).

(** A geometry instance: what it was built from and how many times its
    [dispose()] has been called. *)
Record Geometry : Type := mkGeometry {
  shape : BufferGeometry;
  geometry_disposed : nat
}.

Record MeshPhongMaterial : Type := mkMaterial {
  color : string;
  wireframe : bool;
  needsUpdate : bool;
  material_disposed : nat
}.

(** [geometry] and [material] are references into the heap. *)
Record Mesh : Type := mkMesh {
  geometry : nat;
  material : nat;
  rotation_x : Q;
  rotation_y : Q
}.

Record PerspectiveCamera : Type := mkCamera {
  fov : Q;
  aspect : Q;
  near : Q;
  far : Q;
  camera_position : Q * Q * Q;
  projection_updates : nat
}.

Record WebGLRenderer : Type := mkRenderer {
  antialias : bool;
  drawing_size : Q * Q;
  pixelRatio : Q;
  renderer_disposed : nat
}.

Record Scene : Type := mkScene {
  background : N;
  children : list nat
}.

Inductive Obj : Type :=
| OGeometry (g : Geometry)
| OMaterial (m : MeshPhongMaterial)
| OMesh (m : Mesh)
| OCamera (c : PerspectiveCamera)
| ORenderer (r : WebGLRenderer)
| OScene (s : Scene)
| OAmbientLight (light_color : N) (intensity : Q)
| ODirectionalLight (light_color : N) (intensity : Q) (position : Q * Q * Q)
| OAxesHelper (axes_size : Q)
| OGridHelper (grid_size : Q) (divisions : nat) (color1 color2 : N).

End THREE.

Import THREE.

(** ** Host objects and closures *)

(** The [div] that [mountRef] points to: its bounding rectangle and the
    canvases (identified by their renderer) appended to it. *)
Record Container : Type := mkContainer {
  rect_width : Q;
  rect_height : Q;
  dom_children : list nat
}.

(** [handleResize] closes over the camera and the renderer of its
    initialization. *)
Record ResizeHandler : Type := mkResizeHandler {
  hr_camera : nat;
  hr_renderer : nat
}.

(** [animate] closes over the renderer, scene and camera of its
    initialization. *)
Record AnimateClosure : Type := mkAnimate {
  an_renderer : nat;
  an_scene : nat;
  an_camera : nat
}.

(** The function returned by the scene effect closes over the local
    constants [handleResize], [renderer], [geometry], [material], [scene]. *)
Record CleanupClosure : Type := mkCleanup {
  cl_handleResize : ResizeHandler;
  cl_renderer : nat;
  cl_geometry : nat;
  cl_material : nat;
  cl_scene : nat
}.

(** Calls that leave the component, in the order they are made. *)
Inductive Event : Type :=
| EvLog (msg : string) (arg : option bool)
| EvSetItem (key value : string)
| EvNew (id : nat)
| EvSceneAdd (scene : nat) (objs : list nat)
| EvSceneClear (scene : nat)
| EvAppendChild (canvas : nat)
| EvRemoveChild (canvas : nat)
| EvSetGeometry (mesh geom : nat)
| EvDispose (id : nat)
| EvAddEventListener (h : ResizeHandler)
| EvRemoveEventListener (h : ResizeHandler)
| EvRequestAnimationFrame (handle : nat)
| EvCancelAnimationFrame (handle : nat)
| EvRender (renderer scene camera : nat).

#[global] Instance ResizeHandler_eq_dec : EqDecision ResizeHandler.
Proof. solve_decision. Defined.

#[global] Instance Event_eq_dec : EqDecision Event.
Proof. solve_decision. Defined.

(** ** The world: component state, refs, heap and host *)

Record World : Type := mkWorld {
  (* host *)
  localStorage : gmap string string;
  container : option Container;
  devicePixelRatio : Q;
  resize_listeners : list ResizeHandler;
  raf_queue : list (nat * AnimateClosure);
  next_handle : nat;
  (* React state and the cleanup React keeps for the scene effect *)
  st_wireframe : bool;
  st_autoRotate : bool;
  scene_cleanup : option CleanupClosure;
  (* refs *)
  sceneRef : option nat;
  cameraRef : option nat;
  rendererRef : option nat;
  currentMeshRef : option nat;
  animRef : option nat;
  wireframeRef : bool;
  autoRotateRef : bool;
  (* three.js heap *)
  heap : gmap nat Obj;
  next_id : nat;
  (* chronological log of outgoing calls *)
  trace : list Event
}.

(** Field updates.  Each [set_f v w] is [w] with field [f] replaced by [v]. *)

Definition set_localStorage (v : gmap string string) (w : World) : World :=
  mkWorld v (container w) (devicePixelRatio w) (resize_listeners w)
    (raf_queue w) (next_handle w) (st_wireframe w) (st_autoRotate w)
    (scene_cleanup w) (sceneRef w) (cameraRef w) (rendererRef w)
    (currentMeshRef w) (animRef w) (wireframeRef w) (autoRotateRef w)
    (heap w) (next_id w) (trace w).

Definition set_container (v : option Container) (w : World) : World :=
  mkWorld (localStorage w) v (devicePixelRatio w) (resize_listeners w)
    (raf_queue w) (next_handle w) (st_wireframe w) (st_autoRotate w)
    (scene_cleanup w) (sceneRef w) (cameraRef w) (rendererRef w)
    (currentMeshRef w) (animRef w) (wireframeRef w) (autoRotateRef w)
    (heap w) (next_id w) (trace w).

Definition set_resize_listeners (v : list ResizeHandler) (w : World) : World :=
  mkWorld (localStorage w) (container w) (devicePixelRatio w) v
    (raf_queue w) (next_handle w) (st_wireframe w) (st_autoRotate w)
    (scene_cleanup w) (sceneRef w) (cameraRef w) (rendererRef w)
    (currentMeshRef w) (animRef w) (wireframeRef w) (autoRotateRef w)
    (heap w) (next_id w) (trace w).

Definition set_raf_queue (v : list (nat * AnimateClosure)) (w : World) : World :=
  mkWorld (localStorage w) (container w) (devicePixelRatio w)
    (resize_listeners w) v (next_handle w) (st_wireframe w)
    (st_autoRotate w) (scene_cleanup w) (sceneRef w) (cameraRef w)
    (rendererRef w) (currentMeshRef w) (animRef w) (wireframeRef w)
    (autoRotateRef w) (heap w) (next_id w) (trace w).

Definition set_next_handle (v : nat) (w : World) : World :=
  mkWorld (localStorage w) (container w) (devicePixelRatio w)
    (resize_listeners w) (raf_queue w) v (st_wireframe w) (st_autoRotate w)
    (scene_cleanup w) (sceneRef w) (cameraRef w) (rendererRef w)
    (currentMeshRef w) (animRef w) (wireframeRef w) (autoRotateRef w)
    (heap w) (next_id w) (trace w).

Definition set_st_wireframe (v : bool) (w : World) : World :=
  mkWorld (localStorage w) (container w) (devicePixelRatio w)
    (resize_listeners w) (raf_queue w) (next_handle w) v (st_autoRotate w)
    (scene_cleanup w) (sceneRef w) (cameraRef w) (rendererRef w)
    (currentMeshRef w) (animRef w) (wireframeRef w) (autoRotateRef w)
    (heap w) (next_id w) (trace w).

Definition set_st_autoRotate (v : bool) (w : World) : World :=
  mkWorld (localStorage w) (container w) (devicePixelRatio w)
    (resize_listeners w) (raf_queue w) (next_handle w) (st_wireframe w) v
    (scene_cleanup w) (sceneRef w) (cameraRef w) (rendererRef w)
    (currentMeshRef w) (animRef w) (wireframeRef w) (autoRotateRef w)
    (heap w) (next_id w) (trace w).

Definition set_scene_cleanup (v : option CleanupClosure) (w : World) : World :=
  mkWorld (localStorage w) (container w) (devicePixelRatio w)
    (resize_listeners w) (raf_queue w) (next_handle w) (st_wireframe w)
    (st_autoRotate w) v (sceneRef w) (cameraRef w) (rendererRef w)
    (currentMeshRef w) (animRef w) (wireframeRef w) (autoRotateRef w)
    (heap w) (next_id w) (trace w).

Definition set_sceneRef (v : option nat) (w : World) : World :=
  mkWorld (localStorage w) (container w) (devicePixelRatio w)
    (resize_listeners w) (raf_queue w) (next_handle w) (st_wireframe w)
    (st_autoRotate w) (scene_cleanup w) v (cameraRef w) (rendererRef w)
    (currentMeshRef w) (animRef w) (wireframeRef w) (autoRotateRef w)
    (heap w) (next_id w) (trace w).

Definition set_cameraRef (v : option nat) (w : World) : World :=
  mkWorld (localStorage w) (container w) (devicePixelRatio w)
    (resize_listeners w) (raf_queue w) (next_handle w) (st_wireframe w)
    (st_autoRotate w) (scene_cleanup w) (sceneRef w) v (rendererRef w)
    (currentMeshRef w) (animRef w) (wireframeRef w) (autoRotateRef w)
    (heap w) (next_id w) (trace w).

Definition set_rendererRef (v : option nat) (w : World) : World :=
  mkWorld (localStorage w) (container w) (devicePixelRatio w)
    (resize_listeners w) (raf_queue w) (next_handle w) (st_wireframe w)
    (st_autoRotate w) (scene_cleanup w) (sceneRef w) (cameraRef w) v
    (currentMeshRef w) (animRef w) (wireframeRef w) (autoRotateRef w)
    (heap w) (next_id w) (trace w).

Definition set_currentMeshRef (v : option nat) (w : World) : World :=
  mkWorld (localStorage w) (container w) (devicePixelRatio w)
    (resize_listeners w) (raf_queue w) (next_handle w) (st_wireframe w)
    (st_autoRotate w) (scene_cleanup w) (sceneRef w) (cameraRef w)
    (rendererRef w) v (animRef w) (wireframeRef w) (autoRotateRef w)
    (heap w) (next_id w) (trace w).

Definition set_animRef (v : option nat) (w : World) : World :=
  mkWorld (localStorage w) (container w) (devicePixelRatio w)
    (resize_listeners w) (raf_queue w) (next_handle w) (st_wireframe w)
    (st_autoRotate w) (scene_cleanup w) (sceneRef w) (cameraRef w)
    (rendererRef w) (currentMeshRef w) v (wireframeRef w) (autoRotateRef w)
    (heap w) (next_id w) (trace w).

Definition set_wireframeRef (v : bool) (w : World) : World :=
  mkWorld (localStorage w) (container w) (devicePixelRatio w)
    (resize_listeners w) (raf_queue w) (next_handle w) (st_wireframe w)
    (st_autoRotate w) (scene_cleanup w) (sceneRef w) (cameraRef w)
    (rendererRef w) (currentMeshRef w) (animRef w) v (autoRotateRef w)
    (heap w) (next_id w) (trace w).

Definition set_autoRotateRef (v : bool) (w : World) : World :=
  mkWorld (localStorage w) (container w) (devicePixelRatio w)
    (resize_listeners w) (raf_queue w) (next_handle w) (st_wireframe w)
    (st_autoRotate w) (scene_cleanup w) (sceneRef w) (cameraRef w)
    (rendererRef w) (currentMeshRef w) (animRef w) (wireframeRef w) v
    (heap w) (next_id w) (trace w).

Definition set_heap (v : gmap nat Obj) (w : World) : World :=
  mkWorld (localStorage w) (container w) (devicePixelRatio w)
    (resize_listeners w) (raf_queue w) (next_handle w) (st_wireframe w)
    (st_autoRotate w) (scene_cleanup w) (sceneRef w) (cameraRef w)
    (rendererRef w) (currentMeshRef w) (animRef w) (wireframeRef w)
    (autoRotateRef w) v (next_id w) (trace w).

Definition set_next_id (v : nat) (w : World) : World :=
  mkWorld (localStorage w) (container w) (devicePixelRatio w)
    (resize_listeners w) (raf_queue w) (next_handle w) (st_wireframe w)
    (st_autoRotate w) (scene_cleanup w) (sceneRef w) (cameraRef w)
    (rendererRef w) (currentMeshRef w) (animRef w) (wireframeRef w)
    (autoRotateRef w) (heap w) v (trace w).

Definition set_trace (v : list Event) (w : World) : World :=
  mkWorld (localStorage w) (container w) (devicePixelRatio w)
    (resize_listeners w) (raf_queue w) (next_handle w) (st_wireframe w)
    (st_autoRotate w) (scene_cleanup w) (sceneRef w) (cameraRef w)
    (rendererRef w) (currentMeshRef w) (animRef w) (wireframeRef w)
    (autoRotateRef w) (heap w) (next_id w) v.

(** ** Host and engine primitives *)

Definition emit (e : Event) (w : World) : World :=
  set_trace (trace w ++ [e]) w.

Definition console_log (msg : string) (arg : option bool) (w : World) : World :=
  emit (EvLog msg arg) w.

(** JavaScript's [String(b)] on a boolean. *)
Definition String_of_bool (b : bool) : string :=
  if b then "true" else "false".

(** [localStorage.getItem(key)]: the stored string, or [null]. *)
Definition getItem (key : string) (store : gmap string string) : option string :=
  store !! key.

Definition setItem (key value : string) (w : World) : World :=
  emit (EvSetItem key value)
       (set_localStorage (<[key := value]> (localStorage w)) w).

(** [new THREE.X(...)]: a fresh object identity. *)
Definition alloc (o : Obj) (w : World) : nat * World :=
  let id := next_id w in
  (id, emit (EvNew id) (set_next_id (S id) (set_heap (<[id := o]> (heap w)) w))).

Definition new_geometry (b : BufferGeometry) (w : World) : nat * World :=
  alloc (OGeometry (mkGeometry b 0)) w.

(** [x.dispose()] for the three disposable kinds of object. *)
Definition dispose_obj (o : Obj) : Obj :=
  match o with
  | OGeometry g => OGeometry (mkGeometry (shape g) (S (geometry_disposed g)))
  | OMaterial m =>
      OMaterial (mkMaterial (color m) (wireframe m) (needsUpdate m)
                            (S (material_disposed m)))
  | ORenderer r =>
      ORenderer (mkRenderer (antialias r) (drawing_size r) (pixelRatio r)
                            (S (renderer_disposed r)))
  | other => other
  end.

Definition dispose (id : nat) (w : World) : World :=
  emit (EvDispose id) (set_heap (alter dispose_obj id (heap w)) w).

(** Number of [dispose()] calls an object has received. *)
Definition dispose_count (id : nat) (w : World) : nat :=
  match heap w !! id with
  | Some (OGeometry g) => geometry_disposed g
  | Some (OMaterial m) => material_disposed m
  | Some (ORenderer r) => renderer_disposed r
  | _ => 0
  end.

(** [mesh.geometry = g] *)
Definition mesh_with_geometry (g : nat) (o : Obj) : Obj :=
  match o with
  | OMesh m => OMesh (mkMesh g (material m) (rotation_x m) (rotation_y m))
  | other => other
  end.

Definition set_mesh_geometry (mesh g : nat) (w : World) : World :=
  emit (EvSetGeometry mesh g)
       (set_heap (alter (mesh_with_geometry g) mesh (heap w)) w).

(** [mesh.rotation.x += dx; mesh.rotation.y += dy] *)
Definition mesh_rotated (dx dy : Q) (o : Obj) : Obj :=
  match o with
  | OMesh m =>
      OMesh (mkMesh (geometry m) (material m)
                    (rotation_x m + dx)%Q (rotation_y m + dy)%Q)
  | other => other
  end.

Definition rotate_mesh (mesh : nat) (dx dy : Q) (w : World) : World :=
  set_heap (alter (mesh_rotated dx dy) mesh (heap w)) w.

(** [mat.wireframe = b; mat.needsUpdate = true] *)
Definition material_with_wireframe (b : bool) (o : Obj) : Obj :=
  match o with
  | OMaterial m => OMaterial (mkMaterial (color m) b true (material_disposed m))
  | other => other
  end.

(** [scene.add(o1, ..., on)] and [scene.clear()] *)
Definition scene_with_children (f : list nat -> list nat) (o : Obj) : Obj :=
  match o with
  | OScene s => OScene (mkScene (background s) (f (children s)))
  | other => other
  end.

Definition scene_add (scene : nat) (objs : list nat) (w : World) : World :=
  emit (EvSceneAdd scene objs)
       (set_heap (alter (scene_with_children (fun cs => cs ++ objs)) scene
                        (heap w)) w).

Definition scene_clear (scene : nat) (w : World) : World :=
  emit (EvSceneClear scene)
       (set_heap (alter (scene_with_children (fun _ => [])) scene (heap w)) w).

(** Camera and renderer setters. *)
Definition camera_with (f : PerspectiveCamera -> PerspectiveCamera) (o : Obj) : Obj :=
  match o with
  | OCamera c => OCamera (f c)
  | other => other
  end.

Definition camera_set_position (camera : nat) (p : Q * Q * Q) (w : World) : World :=
  set_heap (alter (camera_with (fun c =>
    mkCamera (fov c) (aspect c) (near c) (far c) p (projection_updates c)))
    camera (heap w)) w.

Definition camera_set_aspect (camera : nat) (a : Q) (w : World) : World :=
  set_heap (alter (camera_with (fun c =>
    mkCamera (fov c) a (near c) (far c) (camera_position c)
             (projection_updates c)))
    camera (heap w)) w.

Definition camera_updateProjectionMatrix (camera : nat) (w : World) : World :=
  set_heap (alter (camera_with (fun c =>
    mkCamera (fov c) (aspect c) (near c) (far c) (camera_position c)
             (S (projection_updates c))))
    camera (heap w)) w.

Definition renderer_with (f : WebGLRenderer -> WebGLRenderer) (o : Obj) : Obj :=
  match o with
  | ORenderer r => ORenderer (f r)
  | other => other
  end.

Definition renderer_setSize (renderer : nat) (width height : Q) (w : World) : World :=
  set_heap (alter (renderer_with (fun r =>
    mkRenderer (antialias r) (width, height) (pixelRatio r)
               (renderer_disposed r)))
    renderer (heap w)) w.

Definition renderer_setPixelRatio (renderer : nat) (ratio : Q) (w : World) : World :=
  set_heap (alter (renderer_with (fun r =>
    mkRenderer (antialias r) (drawing_size r) ratio (renderer_disposed r)))
    renderer (heap w)) w.

Definition renderer_render (renderer scene camera : nat) (w : World) : World :=
  emit (EvRender renderer scene camera) w.

(** [light.position.set(x, y, z)] *)
Definition light_with_position (p : Q * Q * Q) (o : Obj) : Obj :=
  match o with
  | ODirectionalLight c i _ => ODirectionalLight c i p
  | other => other
  end.

Definition light_set_position (light : nat) (p : Q * Q * Q) (w : World) : World :=
  set_heap (alter (light_with_position p) light (heap w)) w.

(** DOM: [mountRef.current.appendChild / removeChild / contains]. *)
Definition container_with (f : list nat -> list nat) (w : World) : World :=
  match container w with
  | Some c =>
      set_container
        (Some (mkContainer (rect_width c) (rect_height c) (f (dom_children c)))) w
  | None => w
  end.

Definition appendChild (canvas : nat) (w : World) : World :=
  emit (EvAppendChild canvas) (container_with (fun cs => cs ++ [canvas]) w).

Definition removeChild (canvas : nat) (w : World) : World :=
  emit (EvRemoveChild canvas)
       (container_with (filter (fun c => c <> canvas)) w).

Definition contains (canvas : nat) (w : World) : bool :=
  match container w with
  | Some c => bool_decide (canvas ∈ dom_children c)
  | None => false
  end.

(** [window.addEventListener('resize', h)] / [removeEventListener]. *)
Definition addEventListener (h : ResizeHandler) (w : World) : World :=
  emit (EvAddEventListener h)
       (set_resize_listeners (resize_listeners w ++ [h]) w).

Definition removeEventListener (h : ResizeHandler) (w : World) : World :=
  emit (EvRemoveEventListener h)
       (set_resize_listeners (filter (fun h' => h' <> h) (resize_listeners w)) w).

(** [requestAnimationFrame(cb)] returns a fresh handle and queues [cb];
    [cancelAnimationFrame(h)] removes the request with handle [h]. *)
Definition requestAnimationFrame (cb : AnimateClosure) (w : World) : nat * World :=
  let h := next_handle w in
  (h, emit (EvRequestAnimationFrame h)
        (set_next_handle (S h) (set_raf_queue (raf_queue w ++ [(h, cb)]) w))).

Definition cancelAnimationFrame (h : nat) (w : World) : World :=
  emit (EvCancelAnimationFrame h)
       (set_raf_queue (filter (fun r => r.1 <> h) (raf_queue w)) w).

(** ** The component *)

(** [useState] initializers (lines 12-17): read once, on the first render. *)
Definition init_wireframe (store : gmap string string) : bool :=
  bool_decide (getItem "wireframe" store = Some "true").

Definition init_autoRotate (store : gmap string string) : bool :=
  negb (bool_decide (getItem "autoRotate" store = Some "false")).

(** The geometry catalog (lines 23-56): an object literal, enumerated by
    [Object.entries] in insertion order. *)
Record CatalogEntry : Type := mkEntry {
  label : string;
  create : World -> nat * World
}.

Definition geometries : list (string * CatalogEntry) :=
  [ ("Esfera",   mkEntry "Esfera" (new_geometry (SphereGeometry 1 32 16)));
    ("Plano",    mkEntry "Plano" (new_geometry (PlaneGeometry 2 2)));
    ("Cono",     mkEntry "Cono" (new_geometry (ConeGeometry 1 2 16)));
    ("Cilindro", mkEntry "Cilindro" (new_geometry (CylinderGeometry 1 1 2 16)));
    ("Toro",     mkEntry "Toro" (new_geometry (TorusGeometry 1 0.3 16 64)));
    ("Nudo",     mkEntry "Nudo Toroidal"
                         (new_geometry (TorusKnotGeometry 1 0.3 100 16)));
    ("Círculo",  mkEntry "Círculo" (new_geometry (CircleGeometry 1 32)));
    ("Anillo",   mkEntry "Anillo" (new_geometry (RingGeometry 0.5 1 32))) ].

(** Effects that mirror React state into the refs and [localStorage]
    (lines 59-69). *)
Definition sync_wireframe (w : World) : World :=
  let w := set_wireframeRef (st_wireframe w) w in
  let w := setItem "wireframe" (String_of_bool (st_wireframe w)) w in
  console_log "🎨 Wireframe actualizado:" (Some (st_wireframe w)) w.

Definition sync_autoRotate (w : World) : World :=
  let w := set_autoRotateRef (st_autoRotate w) w in
  let w := setItem "autoRotate" (String_of_bool (st_autoRotate w)) w in
  console_log "🔄 AutoRotate actualizado:" (Some (st_autoRotate w)) w.

(** The frame callback (lines 113-120). *)
Definition animate (self : AnimateClosure) (w : World) : World :=
  let '(h, w) := requestAnimationFrame self w in
  let w := set_animRef (Some h) w in
  let w :=
    match autoRotateRef w, currentMeshRef w with
    | true, Some mesh => rotate_mesh mesh 0.01 0.015 w
    | _, _ => w
    end in
  renderer_render (an_renderer self) (an_scene self) (an_camera self) w.

(** The resize handler (lines 123-129). *)
Definition handleResize (self : ResizeHandler) (w : World) : World :=
  match container w with
  | None => w
  | Some rect =>
      let w := camera_set_aspect (hr_camera self)
                                 (rect_width rect / rect_height rect)%Q w in
      let w := camera_updateProjectionMatrix (hr_camera self) w in
      renderer_setSize (hr_renderer self) (rect_width rect) (rect_height rect) w
  end.

(** The function returned by the scene effect (lines 132-140).
    [if (animRef.current)] is JavaScript truthiness of [number | null]. *)
Definition cleanup (self : CleanupClosure) (w : World) : World :=
  let w := console_log "🧹 Limpiando escena..." None w in
  let w := removeEventListener (cl_handleResize self) w in
  let w :=
    match animRef w with
    | Some h => if bool_decide (h <> 0) then cancelAnimationFrame h w else w
    | None => w
    end in
  let w := dispose (cl_renderer self) w in
  let w := dispose (cl_geometry self) w in
  let w := dispose (cl_material self) w in
  scene_clear (cl_scene self) w.

(** The guard of the scene effect against a renderer left by an earlier
    initialization (lines 85-90). *)
Definition dispose_previous_renderer (w : World) : World :=
  match rendererRef w with
  | Some old =>
      let w := dispose old w in
      if contains old w then removeChild old w else w
  | None => w
  end.

(** The scene effect (lines 72-141). *)
Definition init_scene (w : World) : World :=
  match container w with
  | None => w
  | Some mount =>
      let w := console_log "🎬 Inicializando escena..." None w in
      let '(scene, w) := alloc (OScene (mkScene 0x0a0a0a%N [])) w in
      let w := set_sceneRef (Some scene) w in
      let width := rect_width mount in
      let height := rect_height mount in
      let '(camera, w) :=
        alloc (OCamera (mkCamera 75 (width / height) 0.1 1000 (0, 0, 0) 0)%Q) w in
      let w := camera_set_position camera (3, 2, 4)%Q w in
      let w := set_cameraRef (Some camera) w in
      let w := dispose_previous_renderer w in
      let '(renderer, w) :=
        alloc (ORenderer (mkRenderer true (300, 150) 1 0)%Q) w in
      let w := renderer_setSize renderer width height w in
      let w := renderer_setPixelRatio renderer (devicePixelRatio w) w in
      let w := set_rendererRef (Some renderer) w in
      let w := appendChild renderer w in
      let '(ambient, w) := alloc (OAmbientLight 0xffffff%N 0.35%Q) w in
      let '(dir, w) :=
        alloc (ODirectionalLight 0xffffff%N 0.9%Q (0, 1, 0)%Q) w in
      let w := light_set_position dir (5, 5, 5)%Q w in
      let w := scene_add scene [ambient; dir] w in
      let '(geometry, w) := new_geometry (BoxGeometry 1.5 1.5 1.5) w in
      let '(material, w) :=
        alloc (OMaterial (mkMaterial "#44aa88" (wireframeRef w) false 0)) w in
      let '(cube, w) := alloc (OMesh (mkMesh geometry material 0 0)) w in
      let w := set_currentMeshRef (Some cube) w in
      let w := scene_add scene [cube] w in
      let '(axes, w) := alloc (OAxesHelper 2) w in
      let '(grid, w) := alloc (OGridHelper 10 10 0x444444%N 0x222222%N) w in
      let w := scene_add scene [axes; grid] w in
      let w := animate (mkAnimate renderer scene camera) w in
      let handler := mkResizeHandler camera renderer in
      let w := addEventListener handler w in
      set_scene_cleanup (Some (mkCleanup handler renderer geometry material scene)) w
  end.

(** [replaceGeometry] (lines 144-152).  A ref always points to a live heap
    object, so the second [match] always takes its first branch. *)
Definition replaceGeometry (createGeometry : World -> nat * World)
    (w : World) : World :=
  match currentMeshRef w with
  | None => w
  | Some mesh =>
      match heap w !! mesh with
      | Some (OMesh m) =>
          let oldGeometry := geometry m in
          let '(newGeometry, w) := createGeometry w in
          let w := set_mesh_geometry mesh newGeometry w in
          let w := dispose oldGeometry w in
          console_log "🔁 Geometría reemplazada" None w
      | _ => w
      end
  end.

(** The effect that applies the wireframe flag to the material
    (lines 155-162). *)
Definition apply_wireframe (w : World) : World :=
  match currentMeshRef w with
  | None => w
  | Some mesh =>
      match heap w !! mesh with
      | Some (OMesh m) =>
          let mat := material m in
          let w :=
            set_heap (alter (material_with_wireframe (st_wireframe w)) mat
                            (heap w)) w in
          console_log "✅ Wireframe aplicado:" (Some (st_wireframe w)) w
      | _ => w
      end
  end.

(** The worlds [replaceGeometry] goes through, one per statement: before the
    call, after the factory call, after [mesh.geometry = newGeometry], after
    [oldGeometry.dispose()], after the log line. *)
Definition replaceGeometry_states (createGeometry : World -> nat * World)
    (w : World) : list World :=
  match currentMeshRef w with
  | None => [w]
  | Some mesh =>
      match heap w !! mesh with
      | Some (OMesh m) =>
          let oldGeometry := geometry m in
          let '(newGeometry, w1) := createGeometry w in
          let w2 := set_mesh_geometry mesh newGeometry w1 in
          let w3 := dispose oldGeometry w2 in
          let w4 := console_log "🔁 Geometría reemplazada" None w3 in
          [w; w1; w2; w3; w4]
      | _ => [w]
      end
  end.

(** ** React and the host driving the component *)

(** The first render: state from the initializers, [useRef(wireframe)] and
    [useRef(autoRotate)] from the state, every other ref [null];
    [mountRef.current] is the rendered [div] (if any) by the time effects
    run.  The host hands out non-zero animation-frame handles. *)
Definition first_render (store : gmap string string) (mount : option Container)
    (dpr : Q) : World :=
  let wireframe := init_wireframe store in
  let autoRotate := init_autoRotate store in
  mkWorld store mount dpr [] [] 1
          wireframe autoRotate None
          None None None None None wireframe autoRotate
          ∅ 0 [].

(** Effects run after the first commit, in declaration order. *)
Definition mount_effects (w : World) : World :=
  let w := sync_wireframe w in
  let w := sync_autoRotate w in
  let w := init_scene w in
  apply_wireframe w.

Definition mount (store : gmap string string) (c : option Container)
    (dpr : Q) : World :=
  mount_effects (first_render store c dpr).

(** What can happen between mount and unmount. *)
Inductive Action : Type :=
| ClickGeometry (key : string)
| ClickAutoRotate
| ClickWireframe
| AnimationFrame
| Resize (width height : Q).

Fixpoint entry_of (key : string) (entries : list (string * CatalogEntry))
    : option CatalogEntry :=
  match entries with
  | [] => None
  | (k, e) :: rest => if decide (k = key) then Some e else entry_of key rest
  end.

(** One button per catalog entry: [onClick={() => replaceGeometry(create)}]. *)
Definition click_geometry (key : string) (w : World) : World :=
  match entry_of key geometries with
  | Some e => replaceGeometry (create e) w
  | None => w
  end.

(** [setAutoRotate(!autoRotate)], then the effects depending on it. *)
Definition click_autoRotate (w : World) : World :=
  let w := set_st_autoRotate (negb (st_autoRotate w)) w in
  sync_autoRotate w.

(** [setWireframe(!wireframe)], then the effects depending on it, in
    declaration order. *)
Definition click_wireframe (w : World) : World :=
  let w := set_st_wireframe (negb (st_wireframe w)) w in
  let w := sync_wireframe w in
  apply_wireframe w.

(** The host runs the callbacks that were queued when the frame began. *)
Definition animation_frame (w : World) : World :=
  fold_left (fun w r => animate r.2 w) (raf_queue w) (set_raf_queue [] w).

(** The container gets a new rectangle and the window fires [resize]. *)
Definition resize (width height : Q) (w : World) : World :=
  let w :=
    match container w with
    | Some c => set_container (Some (mkContainer width height (dom_children c))) w
    | None => w
    end in
  fold_left (fun w h => handleResize h w) (resize_listeners w) w.

Definition step (w : World) (a : Action) : World :=
  match a with
  | ClickGeometry key => click_geometry key w
  | ClickAutoRotate => click_autoRotate w
  | ClickWireframe => click_wireframe w
  | AnimationFrame => animation_frame w
  | Resize width height => resize width height w
  end.

Definition run_actions (actions : list Action) (w : World) : World :=
  fold_left step actions w.

(** Unmount: React calls the cleanup the scene effect returned, if it
    returned one. *)
Definition unmount (w : World) : World :=
  match scene_cleanup w with
  | Some c => cleanup c w
  | None => w
  end.

(** Calls made by an operation: the part of the trace it appended. *)
Definition trace_since (before after : World) : list Event :=
  drop (length (trace before)) (trace after).

(** ** Observations used in the statements *)

(** Objects disposed by a sequence of calls, in order. *)
Definition disposals (tr : list Event) : list nat :=
  omap (fun e => match e with EvDispose id => Some id | _ => None end) tr.

(** The Shape attached to the active Mesh, the active Material and the
    Mesh's rotation angles, read through [currentMeshRef]. *)
Definition active_mesh (w : World) : option Mesh :=
  match currentMeshRef w with
  | Some mesh =>
      match heap w !! mesh with
      | Some (OMesh m) => Some m
      | _ => None
      end
  | None => None
  end.

Definition attached_shape (w : World) : option nat :=
  geometry <$> active_mesh w.

Definition active_material (w : World) : option MeshPhongMaterial :=
  match active_mesh w with
  | Some m =>
      match heap w !! material m with
      | Some (OMaterial mat) => Some mat
      | _ => None
      end
  | None => None
  end.

(** A Shape that exists and has never been disposed, and the set of all
    such Shapes in the heap. *)
Definition undisposed (w : World) (id : nat) : Prop :=
  exists b, heap w !! id = Some (OGeometry (mkGeometry b 0)).

Definition is_undisposed_shape (o : Obj) : bool :=
  match o with
  | OGeometry g => bool_decide (geometry_disposed g = 0)
  | _ => false
  end.

Definition undisposed_shapes (w : World) : gset nat :=
  dom (filter (fun p => is_undisposed_shape p.2 = true) (heap w)).

(** Calls into the engine: the trace without the console lines. *)
Definition is_console_line (e : Event) : bool :=
  match e with
  | EvLog _ _ => true
  | _ => false
  end.

Definition engine_calls (tr : list Event) : list Event :=
  filter (fun e => is_console_line e = false) tr.

(** The order of steps the specification gives for a replacement: factory,
    dispose of the old Shape, then attachment of the new one. *)
Definition dispose_then_attach (tr : list Event) : Prop :=
  exists mesh old new,
    engine_calls tr = [EvNew new; EvDispose old; EvSetGeometry mesh new].

(** The order of steps [replaceGeometry] has: factory, attachment of the new
    Shape, then dispose of the old one. *)
Definition attach_then_dispose (tr : list Event) : Prop :=
  exists mesh old new,
    engine_calls tr = [EvNew new; EvSetGeometry mesh new; EvDispose old].

(** Identities at or above [next_id] have not been handed out yet. *)
Definition heap_fresh (w : World) : Prop :=
  map_Forall (fun i _ => i < next_id w) (heap w).

(** The parameters the specification documents per catalog entry. *)
Definition documented_shapes : list (string * BufferGeometry) :=
  [ ("Esfera", SphereGeometry 1 32 16);
    ("Plano", PlaneGeometry 2 2);
    ("Cono", ConeGeometry 1 2 16);
    ("Cilindro", CylinderGeometry 1 1 2 16);
    ("Toro", TorusGeometry 1 0.3 16 64);
    ("Nudo", TorusKnotGeometry 1 0.3 100 16);
    ("Círculo", CircleGeometry 1 32);
    ("Anillo", RingGeometry 0.5 1 32) ].

(** A mounted world used in the examples: empty store, an 800x600
    container, device pixel ratio 1. *)
Definition div (width height : Q) : Container := mkContainer width height [].

Definition mounted : World := mount ∅ (Some (div 800 600)) 1.

(** ** Vocabulary of the run invariant and of the statements *)

(** [same_prefs w w']: going from [w] to [w'] wrote neither reactive
    boolean and neither mirror cell. *)
Definition same_prefs (w w' : World) : Prop :=
  st_wireframe w' = st_wireframe w /\
  st_autoRotate w' = st_autoRotate w /\
  wireframeRef w' = wireframeRef w /\
  autoRotateRef w' = autoRotateRef w.

(** The scene effect allocates its objects in a fixed order, so in a run
    that starts from [first_render] they have fixed identities. *)
Definition scene_id : nat := 0.
Definition camera_id : nat := 1.
Definition renderer_id : nat := 2.
Definition ambient_id : nat := 3.
Definition dir_id : nat := 4.
Definition cube_geometry_id : nat := 5.
Definition material_id : nat := 6.
Definition mesh_id : nat := 7.
Definition axes_id : nat := 8.
Definition grid_id : nat := 9.

Definition the_handler : ResizeHandler := mkResizeHandler camera_id renderer_id.
Definition the_animate : AnimateClosure :=
  mkAnimate renderer_id scene_id camera_id.
Definition the_cleanup : CleanupClosure :=
  mkCleanup the_handler renderer_id cube_geometry_id material_id scene_id.

(** What holds of every world between mount and unmount. *)
Record Inv (w : World) : Prop := mkInv {
  inv_container : is_Some (container w);
  inv_mirror_wireframe : wireframeRef w = st_wireframe w;
  inv_mirror_autoRotate : autoRotateRef w = st_autoRotate w;
  inv_store_wireframe :
    localStorage w !! "wireframe" = Some (String_of_bool (st_wireframe w));
  inv_store_autoRotate :
    localStorage w !! "autoRotate" = Some (String_of_bool (st_autoRotate w));
  inv_sceneRef : sceneRef w = Some scene_id;
  inv_cameraRef : cameraRef w = Some camera_id;
  inv_rendererRef : rendererRef w = Some renderer_id;
  inv_meshRef : currentMeshRef w = Some mesh_id;
  inv_cleanup : scene_cleanup w = Some the_cleanup;
  inv_listeners : resize_listeners w = [the_handler];
  inv_raf :
    exists h, animRef w = Some h /\ h <> 0 /\ raf_queue w = [(h, the_animate)];
  inv_handle : next_handle w <> 0;
  inv_fresh : heap_fresh w;
  inv_next : 10 <= next_id w;
  inv_scene :
    heap w !! scene_id =
    Some (OScene (mkScene 0x0a0a0a%N
                          [ambient_id; dir_id; mesh_id; axes_id; grid_id]));
  inv_camera : exists cam, heap w !! camera_id = Some (OCamera cam);
  inv_renderer :
    exists r, heap w !! renderer_id = Some (ORenderer r) /\
              renderer_disposed r = 0;
  inv_ambient : heap w !! ambient_id = Some (OAmbientLight 0xffffff%N 0.35%Q);
  inv_dir :
    heap w !! dir_id = Some (ODirectionalLight 0xffffff%N 0.9%Q (5, 5, 5)%Q);
  inv_axes : heap w !! axes_id = Some (OAxesHelper 2);
  inv_grid :
    heap w !! grid_id = Some (OGridHelper 10 10 0x444444%N 0x222222%N);
  inv_material :
    exists mat, heap w !! material_id = Some (OMaterial mat) /\
                wireframe mat = st_wireframe w /\
                material_disposed mat = 0;
  inv_mesh :
    exists m n,
      heap w !! mesh_id = Some (OMesh m) /\
      material m = material_id /\
      (geometry m = cube_geometry_id \/ 10 <= geometry m) /\
      undisposed w (geometry m) /\
      heap w !! cube_geometry_id =
        Some (OGeometry (mkGeometry (BoxGeometry 1.5 1.5 1.5) n)) /\
      (geometry m = cube_geometry_id -> n = 0) /\
      (geometry m <> cube_geometry_id -> n = 1)
}.

(** A run contains a geometry replacement when some catalog button was
    clicked in it. *)
Definition geometry_clicked (actions : list Action) : Prop :=
  exists key, ClickGeometry key ∈ actions /\ is_Some (entry_of key geometries).

(** The attached Shape is one made by a catalog factory, not the cube of
    the initialization. *)
Definition replaced (w : World) : Prop :=
  exists g, attached_shape w = Some g /\ 10 <= g.

(** The mirror cells agree with the reactive booleans. *)
Definition mirror_ok (w : World) : Prop :=
  wireframeRef w = st_wireframe w /\ autoRotateRef w = st_autoRotate w.

(** Neither mirror cell was written between [w] and [w']. *)
Definition mirrors_untouched (w w' : World) : Prop :=
  wireframeRef w' = wireframeRef w /\ autoRotateRef w' = autoRotateRef w.

(** The objects of the scene other than the Mesh and its Shape: the scene
    itself, the camera, the renderer, both lights, the Material and the two
    helpers. *)
Definition scene_fixtures : list nat :=
  [scene_id; camera_id; renderer_id; ambient_id; dir_id; material_id;
   axes_id; grid_id].

(** The Mesh after one frame with auto-rotate on. *)
Definition rotated_once (m : Mesh) : Mesh :=
  mkMesh (geometry m) (material m) (rotation_x m + 0.01)%Q
         (rotation_y m + 0.015)%Q.

(** [N] animation frames in a row. *)
Definition frames (N : nat) : list Action := replicate N AnimationFrame.

(** ** The rendered controls *)

(** What the component returns (lines 164-208), reduced to the text of its
    buttons: one button per catalog entry, in [Object.entries] order, and
    the two toggles, whose text depends on the state. *)
Record View : Type := mkView {
  geometry_buttons : list string;
  autoRotate_button : string;
  wireframe_button : string
}.

Definition render (w : World) : View :=
  mkView
    ((fun entry => label entry.2) <$> geometries)
    (if st_autoRotate w then "⏸️ Pausar Rotación" else "▶️ Reanudar Rotación")
    (if st_wireframe w then "🔲 Sólido" else "🔳 Wireframe").

(** ** Vocabulary of the further properties *)

(** The camera, the renderer, the canvas and the Material as the scene
    effect, [handleResize] and the wireframe effect leave them; [kids] are
    the children the container had before the canvas was appended and [dpr]
    the device pixel ratio at initialization. *)
Record Fixtures (kids : list nat) (dpr : Q) (w : World) : Prop := mkFixtures {
  fx_sized :
    exists c k,
      container w = Some c /\
      dom_children c = kids ++ [renderer_id] /\
      heap w !! camera_id =
        Some (OCamera (mkCamera 75 (rect_width c / rect_height c) 0.1 1000
                                (3, 2, 4) k)%Q) /\
      heap w !! renderer_id =
        Some (ORenderer (mkRenderer true (rect_width c, rect_height c)
                                    dpr 0));
  fx_material :
    heap w !! material_id =
    Some (OMaterial (mkMaterial "#44aa88" (st_wireframe w) true 0))
}.

(** Every Shape in the heap other than the attached one has been disposed
    exactly once, and the attached one never. *)
Definition shapes_accounted (w : World) : Prop :=
  forall id g,
    heap w !! id = Some (OGeometry g) ->
    geometry_disposed g = if decide (attached_shape w = Some id) then 0 else 1.

(** An action that is not a click on a catalog button. *)
Definition no_catalog_click (a : Action) : Prop :=
  forall key, a = ClickGeometry key -> entry_of key geometries = None.



(** The calls of [N] consecutive frames when the next free handle is [h]:
    each frame first requests the next one, then draws. *)
Fixpoint frame_calls (h N : nat) : list Event :=
  match N with
  | 0 => []
  | S N' =>
      EvRequestAnimationFrame h
        :: EvRender renderer_id scene_id camera_id
        :: frame_calls (S h) N'
  end.

(** The store holds both preferences as they currently are. *)
Definition store_synced (w : World) : Prop :=
  getItem "wireframe" (localStorage w) =
    Some (String_of_bool (st_wireframe w)) /\
  getItem "autoRotate" (localStorage w) =
    Some (String_of_bool (st_autoRotate w)).

(** * Verification *)

(** ** Basic facts about the primitives *)

Lemma trace_since_app (w w' : World) (l : list Event) :
  trace w' = trace w ++ l -> trace_since w w' = l.
Proof.
  intros H. unfold trace_since. rewrite H. apply drop_app_length.
Qed.

Lemma catalog_factory (key : string) (e : CatalogEntry) :
  (key, e) ∈ geometries ->
  exists b, create e = new_geometry b /\ (key, b) ∈ documented_shapes.
Proof.
  intros H. apply list_elem_of_In in H. simpl in H.
  repeat (destruct H as [H | H];
          [inversion H; subst; eexists; split;
           [reflexivity | apply list_elem_of_In; simpl; tauto] |]).
  destruct H.
Qed.

Lemma entry_of_elem (key : string) (e : CatalogEntry) :
  entry_of key geometries = Some e -> (key, e) ∈ geometries.
Proof.
  intros H. apply list_elem_of_In. simpl in H.
  repeat (case_decide; [subst; inversion H; subst; simpl; tauto |]).
  discriminate.
Qed.

Lemma heap_fresh_lookup (w : World) (i : nat) :
  heap_fresh w -> next_id w <= i -> heap w !! i = None.
Proof.
  intros Hf Hle. destruct (heap w !! i) as [o|] eqn:Hi; [| reflexivity].
  apply Hf in Hi. simpl in Hi. lia.
Qed.

Lemma heap_fresh_lookup_lt (w : World) (i : nat) (o : Obj) :
  heap_fresh w -> heap w !! i = Some o -> i < next_id w.
Proof. intros Hf Hi. exact (Hf i o Hi). Qed.

Lemma heap_fresh_alter (f : Obj -> Obj) (i : nat) (w : World) :
  heap_fresh w -> heap_fresh (set_heap (alter f i (heap w)) w).
Proof.
  intros Hf j o. unfold heap_fresh. simpl. rewrite lookup_alter.
  case_decide; [subst | apply Hf].
  destruct (heap w !! j) as [o'|] eqn:Hj; [| discriminate].
  intros _. exact (Hf j o' Hj).
Qed.

Lemma heap_fresh_alloc (o : Obj) (w : World) :
  heap_fresh w -> heap_fresh (alloc o w).2.
Proof.
  intros Hf j o'. unfold alloc. simpl. rewrite lookup_insert.
  case_decide; [subst; lia |].
  intros Hj. apply Hf in Hj. simpl in Hj. lia.
Qed.

(** ** Symbolic execution of the component code *)

(** [wsimpl] unfolds the component's operations and the field updates and
    projects fields out of the resulting records; map operations on the
    heap and the store are left folded. *)
Ltac wsimpl :=
  lazy beta iota zeta delta
    [init_scene dispose_previous_renderer alloc new_geometry emit console_log setItem dispose
     set_mesh_geometry rotate_mesh scene_add scene_clear
     camera_set_position camera_set_aspect camera_updateProjectionMatrix
     renderer_setSize renderer_setPixelRatio renderer_render
     light_set_position container_with appendChild removeChild contains
     addEventListener removeEventListener requestAnimationFrame
     cancelAnimationFrame animate handleResize cleanup
     sync_wireframe sync_autoRotate replaceGeometry apply_wireframe
     first_render mount mount_effects
     set_localStorage set_container set_resize_listeners set_raf_queue
     set_next_handle set_st_wireframe set_st_autoRotate set_scene_cleanup
     set_sceneRef set_cameraRef set_rendererRef set_currentMeshRef
     set_animRef set_wireframeRef set_autoRotateRef set_heap set_next_id
     set_trace
     localStorage container devicePixelRatio resize_listeners raf_queue
     next_handle st_wireframe st_autoRotate scene_cleanup sceneRef
     cameraRef rendererRef currentMeshRef animRef wireframeRef
     autoRotateRef heap next_id trace
     fst snd an_renderer an_scene an_camera hr_camera hr_renderer
     cl_handleResize cl_renderer cl_geometry cl_material cl_scene].

(** [wproj] only projects fields out of explicit records, everywhere. *)
Ltac wproj :=
  cbn [localStorage container devicePixelRatio resize_listeners raf_queue
       next_handle st_wireframe st_autoRotate scene_cleanup sceneRef
       cameraRef rendererRef currentMeshRef animRef wireframeRef
       autoRotateRef heap next_id trace] in *.

(** ** The boolean preferences and their mirror cells *)

Lemma same_prefs_refl (w : World) : same_prefs w w.
Proof. repeat split. Qed.

Lemma same_prefs_trans (w1 w2 w3 : World) :
  same_prefs w1 w2 -> same_prefs w2 w3 -> same_prefs w1 w3.
Proof. unfold same_prefs. intuition congruence. Qed.

Lemma animate_same_prefs (self : AnimateClosure) (w : World) :
  same_prefs w (animate self w).
Proof.
  destruct w. unfold same_prefs. wsimpl.
  destruct autoRotateRef0, currentMeshRef0; repeat split.
Qed.

Lemma handleResize_same_prefs (self : ResizeHandler) (w : World) :
  same_prefs w (handleResize self w).
Proof.
  destruct w. unfold same_prefs. wsimpl.
  destruct container0; repeat split.
Qed.

Lemma cleanup_same_prefs (self : CleanupClosure) (w : World) :
  same_prefs w (cleanup self w).
Proof.
  destruct w. unfold same_prefs. wsimpl.
  destruct animRef0 as [h|]; [destruct (bool_decide (h <> 0)) |];
    repeat split.
Qed.

Lemma apply_wireframe_same_prefs (w : World) :
  same_prefs w (apply_wireframe w).
Proof.
  destruct w. unfold same_prefs. wsimpl.
  destruct currentMeshRef0 as [mesh|]; [| repeat split].
  destruct (heap0 !! mesh) as [[]|]; repeat split.
Qed.

Lemma replaceGeometry_same_prefs (b : BufferGeometry) (w : World) :
  same_prefs w (replaceGeometry (new_geometry b) w).
Proof.
  destruct w. unfold same_prefs. wsimpl.
  destruct currentMeshRef0 as [mesh|]; [| repeat split].
  destruct (heap0 !! mesh) as [[]|]; repeat split.
Qed.

Lemma dispose_previous_renderer_same_prefs (w : World) :
  same_prefs w (dispose_previous_renderer w).
Proof.
  destruct w. unfold same_prefs. wsimpl.
  destruct rendererRef0 as [old|]; [| repeat split].
  destruct container0 as [c|]; [| repeat split].
  destruct (bool_decide (old ∈ dom_children c)); repeat split.
Qed.

Lemma init_scene_same_prefs (w : World) : same_prefs w (init_scene w).
Proof.
  destruct w. unfold init_scene.
  set (guard := dispose_previous_renderer).
  assert (Hguard : forall w, same_prefs w (guard w))
    by apply dispose_previous_renderer_same_prefs.
  clearbody guard.
  unfold same_prefs in *.
  destruct container0 as [c|]; [| repeat split].
  wsimpl.
  match goal with
  | |- context [guard ?W] =>
      pose proof (Hguard W) as HW; destruct (guard W)
  end.
  wproj. destruct HW as (H1 & H2 & H3 & H4). subst.
  repeat match goal with
         | |- context [match ?b with _ => _ end] => is_var b; destruct b
         end; repeat split.
Qed.

Lemma fold_same_prefs {A : Type} (f : World -> A -> World) (l : list A) :
  (forall w a, same_prefs w (f w a)) ->
  forall w, same_prefs w (fold_left f l w).
Proof.
  intros Hf. induction l as [| a l IH]; intros w; simpl.
  - apply same_prefs_refl.
  - eapply same_prefs_trans; [apply Hf | apply IH].
Qed.

Lemma animation_frame_same_prefs (w : World) :
  same_prefs w (animation_frame w).
Proof.
  unfold animation_frame.
  eapply same_prefs_trans;
    [| apply fold_same_prefs; intros; apply animate_same_prefs].
  destruct w. repeat split.
Qed.

Lemma resize_same_prefs (width height : Q) (w : World) :
  same_prefs w (resize width height w).
Proof.
  unfold resize.
  eapply same_prefs_trans;
    [| apply fold_same_prefs; intros; apply handleResize_same_prefs].
  destruct w. destruct container0; repeat split.
Qed.

Lemma click_geometry_same_prefs (key : string) (w : World) :
  same_prefs w (click_geometry key w).
Proof.
  unfold click_geometry.
  destruct (entry_of key geometries) as [e|] eqn:He;
    [| apply same_prefs_refl].
  destruct (catalog_factory key e (entry_of_elem key e He)) as (b & -> & _).
  apply replaceGeometry_same_prefs.
Qed.

Lemma unmount_same_prefs (w : World) : same_prefs w (unmount w).
Proof.
  unfold unmount. destruct (scene_cleanup w);
    [apply cleanup_same_prefs | apply same_prefs_refl].
Qed.

Lemma mount_prefs (store : gmap string string) (c : option Container)
    (dpr : Q) :
  let w := mount store c dpr in
  st_wireframe w = init_wireframe store /\
  st_autoRotate w = init_autoRotate store /\
  wireframeRef w = init_wireframe store /\
  autoRotateRef w = init_autoRotate store.
Proof.
  cbv zeta. unfold mount, mount_effects.
  set (w := sync_autoRotate (sync_wireframe (first_render store c dpr))).
  destruct (same_prefs_trans _ _ _ (init_scene_same_prefs w)
              (apply_wireframe_same_prefs _)) as (-> & -> & -> & ->).
  repeat split.
Qed.

(** ** Startup preferences *)

(** C7.  At the first render, a preference that is absent from the durable
    store takes its default ([wireframe = false], [autoRotate = true]); a
    stored string [s] makes [wireframe] true exactly when [s] is ["true"] and
    [autoRotate] false exactly when [s] is ["false"].  The mount effects do
    not change either boolean. *)
Theorem startup_preferences (store : gmap string string)
    (mount_div : option Container) (dpr : Q) :
  let w := first_render store mount_div dpr in
  (getItem "wireframe" store = None -> st_wireframe w = false) /\
  (getItem "autoRotate" store = None -> st_autoRotate w = true) /\
  (forall s, getItem "wireframe" store = Some s ->
             (st_wireframe w = true <-> s = "true")) /\
  (forall s, getItem "autoRotate" store = Some s ->
             (st_autoRotate w = false <-> s = "false")) /\
  st_wireframe (mount store mount_div dpr) = st_wireframe w /\
  st_autoRotate (mount store mount_div dpr) = st_autoRotate w.
Proof.
  cbv zeta.
  change (st_wireframe (first_render store mount_div dpr))
    with (init_wireframe store).
  change (st_autoRotate (first_render store mount_div dpr))
    with (init_autoRotate store).
  unfold init_wireframe, init_autoRotate.
  repeat split.
  - intros ->. reflexivity.
  - intros ->. reflexivity.
  - rewrite H. intros Hb. apply bool_decide_eq_true in Hb. congruence.
  - intros ->. rewrite H. apply bool_decide_eq_true. reflexivity.
  - rewrite H. intros Hb.
    apply negb_false_iff, bool_decide_eq_true in Hb. congruence.
  - intros ->. rewrite H. apply negb_false_iff, bool_decide_eq_true.
    reflexivity.
  - apply (mount_prefs store mount_div dpr).
  - apply (mount_prefs store mount_div dpr).
Qed.

(** The defaults on an empty store, and the stored strings ["true"] and
    ["false"] read back. *)
Lemma startup_preferences_witness :
  let stored : gmap string string :=
    <["wireframe" := "true"]> (<["autoRotate" := "false"]> ∅) in
  st_wireframe (first_render ∅ None 1) = false /\
  st_autoRotate (first_render ∅ None 1) = true /\
  (st_wireframe (first_render stored None 1) = true <-> "true" = "true") /\
  (st_autoRotate (first_render stored None 1) = false <-> "false" = "false").
Proof.
  cbv zeta.
  destruct (startup_preferences ∅ None 1) as (H1 & H2 & _).
  destruct (startup_preferences
              (<["wireframe" := "true"]> (<["autoRotate" := "false"]> ∅))
              None 1) as (_ & _ & H3 & H4 & _).
  split; [apply H1; vm_compute; reflexivity |].
  split; [apply H2; vm_compute; reflexivity |].
  split; [apply H3; vm_compute; reflexivity |].
  apply H4; vm_compute; reflexivity.
Defined.

(** The example world has handed out the identities 0 to 9. *)
Lemma mounted_heap_fresh : heap_fresh mounted.
Proof. apply (bool_decide_unpack _). vm_compute. exact I. Qed.

(** ** The geometry catalog *)

(** C4.  The catalog lists the eight entries in insertion order.  Every
    factory takes nothing but the world it allocates in and returns a fresh
    Shape built with the documented parameters; two calls give two distinct
    Shapes, each undisposed, and disposing either leaves the other as it
    was. *)
Theorem catalog_factories_fresh_and_independent :
  (fst <$> geometries) = (fst <$> documented_shapes) /\
  forall key e w,
    (key, e) ∈ geometries ->
    heap_fresh w ->
    let r1 := create e w in
    let r2 := create e r1.2 in
    heap w !! r1.1 = None /\
    heap r1.2 !! r2.1 = None /\
    r1.1 <> r2.1 /\
    (exists b,
        (key, b) ∈ documented_shapes /\
        heap r2.2 !! r1.1 = Some (OGeometry (mkGeometry b 0)) /\
        heap r2.2 !! r2.1 = Some (OGeometry (mkGeometry b 0))) /\
    heap (dispose r1.1 r2.2) !! r2.1 = heap r2.2 !! r2.1 /\
    heap (dispose r2.1 r2.2) !! r1.1 = heap r2.2 !! r1.1 /\
    dispose_count r1.1 (dispose r1.1 r2.2) = 1 /\
    dispose_count r2.1 (dispose r2.1 r2.2) = 1.
Proof.
  split; [reflexivity |].
  intros key e w Hin Hfresh.
  destruct (catalog_factory key e Hin) as (b & -> & Hdoc).
  cbv zeta. unfold new_geometry, alloc, dispose, dispose_count. simpl.
  assert (Hne : next_id w <> S (next_id w)) by lia.
  repeat split.
  - apply heap_fresh_lookup; [exact Hfresh | lia].
  - rewrite lookup_insert_ne by lia. apply heap_fresh_lookup; [exact Hfresh | lia].
  - lia.
  - exists b. split; [exact Hdoc |]. split.
    + rewrite lookup_insert_ne by lia. apply lookup_insert_eq.
    + apply lookup_insert_eq.
  - apply lookup_alter_ne. lia.
  - apply lookup_alter_ne. lia.
  - rewrite lookup_alter_eq, lookup_insert_ne, lookup_insert_eq by lia.
    reflexivity.
  - rewrite lookup_alter_eq, lookup_insert_eq. reflexivity.
Qed.

(** The ring factory called twice in the mounted world. *)
Lemma catalog_factories_fresh_and_independent_witness :
  let r1 := new_geometry (RingGeometry 0.5 1 32) mounted in
  let r2 := new_geometry (RingGeometry 0.5 1 32) r1.2 in
  heap mounted !! r1.1 = None /\
  heap r1.2 !! r2.1 = None /\
  r1.1 <> r2.1 /\
  (exists b,
      ("Anillo", b) ∈ documented_shapes /\
      heap r2.2 !! r1.1 = Some (OGeometry (mkGeometry b 0)) /\
      heap r2.2 !! r2.1 = Some (OGeometry (mkGeometry b 0))) /\
  heap (dispose r1.1 r2.2) !! r2.1 = heap r2.2 !! r2.1 /\
  heap (dispose r2.1 r2.2) !! r1.1 = heap r2.2 !! r1.1 /\
  dispose_count r1.1 (dispose r1.1 r2.2) = 1 /\
  dispose_count r2.1 (dispose r2.1 r2.2) = 1.
Proof.
  apply (proj2 catalog_factories_fresh_and_independent
           "Anillo" (mkEntry "Anillo" (new_geometry (RingGeometry 0.5 1 32)))
           mounted).
  - apply list_elem_of_In. simpl. tauto.
  - exact mounted_heap_fresh.
Defined.

(** ** Geometry replacement *)

Section ReplaceGeometry.

Variable b : BufferGeometry.
Variable w : World.
Variable mesh : nat.
Variable m : Mesh.
Hypothesis Href : currentMeshRef w = Some mesh.
Hypothesis Hmesh : heap w !! mesh = Some (OMesh m).

Lemma replaceGeometry_heap :
  heap (replaceGeometry (new_geometry b) w) =
  alter dispose_obj (geometry m)
    (alter (mesh_with_geometry (next_id w)) mesh
       (<[next_id w := OGeometry (mkGeometry b 0)]> (heap w))).
Proof. unfold replaceGeometry. rewrite Href, Hmesh. reflexivity. Qed.

Lemma replaceGeometry_trace :
  trace (replaceGeometry (new_geometry b) w) =
  trace w ++ [EvNew (next_id w); EvSetGeometry mesh (next_id w);
              EvDispose (geometry m);
              EvLog "🔁 Geometría reemplazada" None].
Proof.
  unfold replaceGeometry. rewrite Href, Hmesh. simpl.
  rewrite <- !app_assoc. reflexivity.
Qed.

Lemma replaceGeometry_next_id :
  next_id (replaceGeometry (new_geometry b) w) = S (next_id w).
Proof. unfold replaceGeometry. rewrite Href, Hmesh. reflexivity. Qed.

Lemma replaceGeometry_currentMeshRef :
  currentMeshRef (replaceGeometry (new_geometry b) w) = Some mesh.
Proof.
  unfold replaceGeometry. rewrite Href, Hmesh. simpl. exact Href.
Qed.

(** Nothing but the heap, the identity counter and the trace changes. *)
Lemma replaceGeometry_frame :
  set_heap (heap w)
    (set_next_id (next_id w)
       (set_trace (trace w) (replaceGeometry (new_geometry b) w))) = w.
Proof.
  unfold replaceGeometry. rewrite Href, Hmesh. destruct w. reflexivity.
Qed.

Hypothesis Hfresh : heap_fresh w.

Lemma replaceGeometry_mesh :
  heap (replaceGeometry (new_geometry b) w) !! mesh =
  Some (OMesh (mkMesh (next_id w) (material m) (rotation_x m) (rotation_y m))).
Proof.
  pose proof (heap_fresh_lookup_lt _ _ _ Hfresh Hmesh) as Hlt.
  rewrite replaceGeometry_heap, lookup_alter.
  case_decide as Hd.
  - rewrite Hd, lookup_alter_eq, lookup_insert_ne, Hmesh by lia.
    reflexivity.
  - rewrite lookup_alter_eq, lookup_insert_ne, Hmesh by lia. reflexivity.
Qed.

Lemma replaceGeometry_new_shape :
  geometry m <> next_id w ->
  heap (replaceGeometry (new_geometry b) w) !! next_id w =
  Some (OGeometry (mkGeometry b 0)).
Proof.
  intros Hne.
  pose proof (heap_fresh_lookup_lt _ _ _ Hfresh Hmesh) as Hlt.
  rewrite replaceGeometry_heap, lookup_alter_ne by exact Hne.
  rewrite lookup_alter_ne by lia. apply lookup_insert_eq.
Qed.

Lemma replaceGeometry_old_shape (g : Geometry) :
  heap w !! geometry m = Some (OGeometry g) ->
  heap (replaceGeometry (new_geometry b) w) !! geometry m =
  Some (OGeometry (mkGeometry (shape g) (S (geometry_disposed g)))).
Proof.
  intros Hg.
  pose proof (heap_fresh_lookup_lt _ _ _ Hfresh Hg) as Hlt.
  assert (Hne : mesh <> geometry m) by congruence.
  rewrite replaceGeometry_heap, lookup_alter_eq, lookup_alter_ne by exact Hne.
  rewrite lookup_insert_ne, Hg by lia. reflexivity.
Qed.

Lemma replaceGeometry_other (id : nat) :
  id <> mesh -> id <> geometry m -> id <> next_id w ->
  heap (replaceGeometry (new_geometry b) w) !! id = heap w !! id.
Proof.
  intros H1 H2 H3.
  rewrite replaceGeometry_heap, !lookup_alter_ne, lookup_insert_ne;
    congruence.
Qed.

End ReplaceGeometry.

(** C1.  With an active Mesh, replacing the geometry by any catalog factory
    leaves the Mesh attached to exactly one Shape, the new undisposed one;
    the Shape attached before has received exactly one more [dispose()], and
    that is the only [dispose()] the operation makes.  With no Mesh the
    operation returns the world unchanged. *)
Theorem replaceGeometry_attaches_new_disposes_old_once :
  (forall key e w mesh m g,
      (key, e) ∈ geometries ->
      currentMeshRef w = Some mesh ->
      heap w !! mesh = Some (OMesh m) ->
      heap w !! geometry m = Some (OGeometry g) ->
      heap_fresh w ->
      let w' := replaceGeometry (create e) w in
      exists new b,
        (key, b) ∈ documented_shapes /\
        attached_shape w' = Some new /\
        new <> geometry m /\
        heap w !! new = None /\
        heap w' !! new = Some (OGeometry (mkGeometry b 0)) /\
        heap w' !! geometry m =
          Some (OGeometry (mkGeometry (shape g) (S (geometry_disposed g)))) /\
        dispose_count (geometry m) w' = S (dispose_count (geometry m) w) /\
        disposals (trace_since w w') = [geometry m]) /\
  (forall createGeometry w,
      currentMeshRef w = None -> replaceGeometry createGeometry w = w).
Proof.
  split.
  - intros key e w mesh m g Hin Href Hmesh Hg Hfresh.
    destruct (catalog_factory key e Hin) as (b & -> & Hdoc).
    cbv zeta.
    pose proof (heap_fresh_lookup_lt _ _ _ Hfresh Hg) as Hlt.
    assert (Hne : geometry m <> next_id w) by lia.
    exists (next_id w), b. repeat split.
    + exact Hdoc.
    + unfold attached_shape, active_mesh.
      rewrite (replaceGeometry_currentMeshRef b w mesh m Href Hmesh).
      rewrite (replaceGeometry_mesh b w mesh m Href Hmesh Hfresh).
      reflexivity.
    + lia.
    + apply heap_fresh_lookup; [exact Hfresh | lia].
    + apply (replaceGeometry_new_shape b w mesh m); assumption.
    + apply (replaceGeometry_old_shape b w mesh m); assumption.
    + unfold dispose_count.
      rewrite (replaceGeometry_old_shape b w mesh m Href Hmesh Hfresh g Hg), Hg.
      reflexivity.
    + rewrite (trace_since_app _ _ _ (replaceGeometry_trace b w mesh m Href Hmesh)).
      reflexivity.
  - intros f w Href. unfold replaceGeometry. rewrite Href. reflexivity.
Qed.

(** The torus factory replacing the initial cube in the mounted world. *)
Lemma replaceGeometry_attaches_new_disposes_old_once_witness :
  let w' := replaceGeometry (new_geometry (TorusGeometry 1 0.3 16 64)) mounted in
  exists new b,
    ("Toro", b) ∈ documented_shapes /\
    attached_shape w' = Some new /\
    new <> 5 /\
    heap mounted !! new = None /\
    heap w' !! new = Some (OGeometry (mkGeometry b 0)) /\
    heap w' !! 5 =
      Some (OGeometry (mkGeometry (BoxGeometry 1.5 1.5 1.5) 1)) /\
    dispose_count 5 w' = S (dispose_count 5 mounted) /\
    disposals (trace_since mounted w') = [5].
Proof.
  apply (proj1 replaceGeometry_attaches_new_disposes_old_once
           "Toro" (mkEntry "Toro" (new_geometry (TorusGeometry 1 0.3 16 64)))
           mounted 7 (mkMesh 5 6 (0 + 0.01) (0 + 0.015))
           (mkGeometry (BoxGeometry 1.5 1.5 1.5) 0)).
  - apply list_elem_of_In. simpl. tauto.
  - reflexivity.
  - vm_compute. reflexivity.
  - vm_compute. reflexivity.
  - exact mounted_heap_fresh.
Defined.

(** ** The invariant of a mounted component *)

Ltac unfold_ids :=
  unfold the_cleanup, the_animate, the_handler, scene_id, camera_id,
    renderer_id, ambient_id, dir_id, cube_geometry_id, material_id, mesh_id,
    axes_id, grid_id in *.

(** Lookups in a heap built from updates at known identities. *)
Ltac heap_lookup :=
  repeat first
    [ rewrite lookup_insert_eq
    | rewrite lookup_alter_eq
    | rewrite lookup_insert_ne by lia
    | rewrite lookup_alter_ne by lia ].

Lemma map_Forall_alter_key {A : Type} (P : nat -> Prop) (f : A -> A)
    (i : nat) (m : gmap nat A) :
  map_Forall (fun k _ => P k) m -> map_Forall (fun k _ => P k) (alter f i m).
Proof.
  intros Hm j x. rewrite lookup_alter. case_decide; [subst | apply Hm].
  destruct (m !! j) as [y|] eqn:Hj; [| discriminate].
  intros _. exact (Hm j y Hj).
Qed.

Ltac heap_fresh_tac :=
  unfold heap_fresh in *; wsimpl; wproj;
  repeat first
    [ apply map_Forall_alter_key
    | apply map_Forall_insert_2; [lia |] ];
  first
    [ apply map_Forall_empty
    | assumption
    | match goal with
      | H : map_Forall _ ?h |- map_Forall _ ?h =>
          let i := fresh in let o := fresh in let Hi := fresh in
          intros i o Hi; apply H in Hi; simpl in *; lia
      end ].

Lemma apply_wireframe_unfold (w : World) (mesh : nat) (m : Mesh) :
  currentMeshRef w = Some mesh ->
  heap w !! mesh = Some (OMesh m) ->
  apply_wireframe w =
  console_log "✅ Wireframe aplicado:" (Some (st_wireframe w))
    (set_heap (alter (material_with_wireframe (st_wireframe w))
                     (material m) (heap w)) w).
Proof. intros H1 H2. unfold apply_wireframe. rewrite H1, H2. reflexivity. Qed.

Lemma Inv_mount (store : gmap string string) (c : Container) (dpr : Q) :
  Inv (mount store (Some c) dpr).
Proof.
  unfold mount, mount_effects, first_render.
  generalize (init_wireframe store) (init_autoRotate store).
  intros wf ar.
  destruct ar.
  all: erewrite apply_wireframe_unfold;
    [| wsimpl; reflexivity | wsimpl; heap_lookup; reflexivity].
  all: wsimpl; cbn [geometry material].
  all: split; wproj; unfold_ids; unfold undisposed, attached_shape, active_mesh;
    wproj; heap_lookup.
  all: try solve [ eauto | reflexivity | lia | heap_fresh_tac
              | eexists; repeat split; eauto; lia ].
  all: try (rewrite lookup_insert_ne by discriminate; apply lookup_insert_eq).
  all: eexists _, 0; heap_lookup; cbn [geometry material];
    repeat split; eauto; try (intros H; exfalso; apply H; reflexivity).
Qed.

(** Opening the invariant of a world given by its fields. *)
Ltac open_inv :=
  intros []; unfold undisposed in *;
  repeat match goal with
         | H : exists _, _ |- _ => destruct H
         | H : _ /\ _ |- _ => destruct H
         end;
  match goal with w : World |- _ => destruct w end;
  wproj; subst; unfold_ids.

Ltac use_heap_hyps :=
  repeat match goal with
         | H : ?h !! ?k = _ |- context [?h !! ?k] => rewrite H
         end.

Lemma Inv_replaceGeometry (b : BufferGeometry) (w : World) :
  Inv w -> Inv (replaceGeometry (new_geometry b) w).
Proof.
  open_inv.
  match goal with
  | H : heap_fresh _, H' : _ !! geometry _ = Some _ |- _ =>
      pose proof (heap_fresh_lookup_lt _ _ _ H H') as Hlt; wproj
  end.
  unfold replaceGeometry; wproj; use_heap_hyps.
  wsimpl.
  split; wproj; unfold undisposed; wproj; unfold_ids.
  all: try solve [ eauto | lia | heap_fresh_tac ].
  all: try solve [ heap_lookup; use_heap_hyps; eauto ].
  all: try solve [ eexists; heap_lookup; use_heap_hyps; eauto ].
  match goal with
  | H : _ !! 7 = Some (OMesh ?m) |- _ =>
      exists (mkMesh next_id0 (material m) (rotation_x m) (rotation_y m)), 1;
      cbn [geometry material]
  end.
  split; [heap_lookup; use_heap_hyps; reflexivity |].
  split; [assumption |].
  split; [lia |].
  split; [eexists; heap_lookup; reflexivity |].
  split; [| lia].
  match goal with H : _ = 5 \/ _ |- _ => destruct H as [Hg | Hg] end.
  - rewrite Hg in *. heap_lookup. use_heap_hyps.
    match goal with H : 5 = 5 -> _ |- _ => rewrite (H eq_refl) end.
    reflexivity.
  - heap_lookup. use_heap_hyps.
    match goal with H : _ <> 5 -> _ = 1 |- _ => rewrite H by lia end.
    reflexivity.
Qed.

(** Routine goals of the invariant after an operation was executed
    symbolically. *)
Ltac inv_routine :=
  split; wproj; unfold undisposed; wproj; unfold_ids;
  try solve [ eauto | lia | heap_fresh_tac ];
  try solve [ heap_lookup; use_heap_hyps; eauto ];
  try solve [ eexists; heap_lookup; use_heap_hyps; simpl; eauto ];
  try solve [ rewrite ?lookup_insert_eq, ?lookup_insert_ne by discriminate;
              eauto ].

Ltac keep_mesh :=
  eexists _, _;
  split; [heap_lookup; use_heap_hyps; reflexivity |];
  cbn [mesh_rotated mesh_with_geometry geometry material];
  split; [assumption |];
  split; [lia |];
  split; [eexists; heap_lookup; use_heap_hyps; reflexivity |];
  split; [heap_lookup; use_heap_hyps; reflexivity |];
  split; assumption.

Ltac mesh_cases :=
  match goal with
  | H : geometry _ = 5 \/ _ |- _ =>
      let Hg := fresh "Hg" in
      destruct H as [Hg | Hg]
  end.

Lemma Inv_click_autoRotate (w : World) : Inv w -> Inv (click_autoRotate w).
Proof.
  open_inv. unfold click_autoRotate. wsimpl.
  inv_routine. mesh_cases; keep_mesh.
Qed.

Lemma Inv_click_wireframe (w : World) : Inv w -> Inv (click_wireframe w).
Proof.
  open_inv. unfold click_wireframe, apply_wireframe. wsimpl.
  use_heap_hyps. wsimpl.
  match goal with H : material _ = 6 |- _ => rewrite H in * end.
  inv_routine.
  mesh_cases; keep_mesh.
Qed.

Lemma Inv_animation_frame (w : World) : Inv w -> Inv (animation_frame w).
Proof.
  open_inv. unfold animation_frame. wproj. cbn [fold_left snd].
  destruct st_autoRotate0; wsimpl.
  all: inv_routine.
  all: mesh_cases; keep_mesh.
Qed.

Lemma Inv_resize (width height : Q) (w : World) :
  Inv w -> Inv (resize width height w).
Proof.
  open_inv. unfold resize. wproj.
  destruct inv_container0 as [c ->]. unfold set_container. wproj.
  cbn [fold_left]. wsimpl.
  inv_routine. mesh_cases; keep_mesh.
Qed.

Lemma Inv_click_geometry (key : string) (w : World) :
  Inv w -> Inv (click_geometry key w).
Proof.
  intros HI. unfold click_geometry.
  destruct (entry_of key geometries) as [e|] eqn:He; [| exact HI].
  destruct (catalog_factory key e (entry_of_elem key e He)) as (b & -> & _).
  apply Inv_replaceGeometry, HI.
Qed.

Lemma Inv_step (w : World) (a : Action) : Inv w -> Inv (step w a).
Proof.
  intros HI. destruct a; simpl.
  - apply Inv_click_geometry, HI.
  - apply Inv_click_autoRotate, HI.
  - apply Inv_click_wireframe, HI.
  - apply Inv_animation_frame, HI.
  - apply Inv_resize, HI.
Qed.

Lemma Inv_run_actions (actions : list Action) (w : World) :
  Inv w -> Inv (run_actions actions w).
Proof.
  revert w. induction actions as [| a actions IH]; intros w HI; simpl.
  - exact HI.
  - apply IH, Inv_step, HI.
Qed.

Lemma Inv_run (store : gmap string string) (c : Container) (dpr : Q)
    (actions : list Action) :
  Inv (run_actions actions (mount store (Some c) dpr)).
Proof. apply Inv_run_actions, Inv_mount. Qed.

Lemma Inv_active_mesh (w : World) :
  Inv w ->
  exists m,
    active_mesh w = Some m /\
    heap w !! mesh_id = Some (OMesh m) /\
    material m = material_id /\
    (geometry m = cube_geometry_id \/ 10 <= geometry m) /\
    undisposed w (geometry m) /\
    geometry m < next_id w.
Proof.
  intros HI. destruct (inv_mesh w HI) as (m & n & Hm & Hmat & Hg & Hu & _).
  exists m. unfold active_mesh. rewrite (inv_meshRef w HI), Hm.
  repeat split; try assumption.
  destruct Hu as (b & Hb).
  exact (heap_fresh_lookup_lt _ _ _ (inv_fresh w HI) Hb).
Qed.

Lemma Inv_active_material (w : World) :
  Inv w ->
  exists mat,
    active_material w = Some mat /\
    wireframe mat = st_wireframe w /\
    material_disposed mat = 0.
Proof.
  intros HI. destruct (Inv_active_mesh w HI) as (m & Hm & _ & Hmat & _).
  destruct (inv_material w HI) as (mat & Hl & Hw & Hd).
  exists mat. unfold active_material. rewrite Hm, Hmat, Hl. auto.
Qed.

(** Only a click on a catalog button changes which Shape is attached. *)
Lemma attached_shape_step (w : World) (a : Action) :
  Inv w ->
  (forall key, a = ClickGeometry key -> entry_of key geometries = None) ->
  attached_shape (step w a) = attached_shape w.
Proof.
  intros HI Ha. destruct a as [key | | | | width height]; simpl.
  - unfold click_geometry. rewrite (Ha key eq_refl). reflexivity.
  - revert HI. open_inv. unfold click_autoRotate. wsimpl. reflexivity.
  - revert HI. open_inv. unfold click_wireframe, apply_wireframe. wsimpl.
    use_heap_hyps. wsimpl. unfold attached_shape, active_mesh. wproj.
    heap_lookup. reflexivity.
  - revert HI. open_inv. unfold animation_frame. wproj. cbn [fold_left snd].
    destruct st_autoRotate0; wsimpl; unfold attached_shape, active_mesh;
      wproj; heap_lookup; use_heap_hyps; reflexivity.
  - revert HI. open_inv. unfold resize. wproj.
    destruct inv_container0 as [c ->]. unfold set_container. wproj.
    cbn [fold_left]. wsimpl. unfold attached_shape, active_mesh. wproj.
    heap_lookup. reflexivity.
Qed.

Lemma replaceGeometry_attached (b : BufferGeometry) (w : World) :
  Inv w ->
  attached_shape (replaceGeometry (new_geometry b) w) = Some (next_id w).
Proof.
  intros HI. destruct (Inv_active_mesh w HI) as (m & _ & Hm & _).
  unfold attached_shape, active_mesh.
  rewrite (replaceGeometry_currentMeshRef b w mesh_id m (inv_meshRef w HI) Hm).
  rewrite (replaceGeometry_mesh b w mesh_id m (inv_meshRef w HI) Hm
             (inv_fresh w HI)).
  reflexivity.
Qed.

Lemma replaced_step (w : World) (a : Action) :
  Inv w -> replaced w -> replaced (step w a).
Proof.
  intros HI (g & Hg & Hle).
  destruct a as [key | | | | width height];
    try (exists g; split; [| exact Hle];
         rewrite attached_shape_step; [exact Hg | exact HI | discriminate]).
  simpl. unfold click_geometry.
  destruct (entry_of key geometries) as [e|] eqn:He; [| exists g; auto].
  destruct (catalog_factory key e (entry_of_elem key e He)) as (b & -> & _).
  exists (next_id w). split; [apply replaceGeometry_attached, HI |].
  apply (inv_next w HI).
Qed.

Lemma replaced_click (key : string) (w : World) :
  Inv w -> is_Some (entry_of key geometries) ->
  replaced (click_geometry key w).
Proof.
  intros HI [e He]. unfold click_geometry. rewrite He.
  destruct (catalog_factory key e (entry_of_elem key e He)) as (b & -> & _).
  exists (next_id w). split; [apply replaceGeometry_attached, HI |].
  apply (inv_next w HI).
Qed.

Lemma replaced_run (actions : list Action) (w : World) :
  Inv w -> replaced w \/ geometry_clicked actions ->
  replaced (run_actions actions w).
Proof.
  revert w. induction actions as [| a actions IH]; intros w HI H; simpl.
  - destruct H as [H | (key & Hin & _)]; [exact H |].
    apply elem_of_nil in Hin. destruct Hin.
  - apply IH; [apply Inv_step, HI |].
    destruct H as [H | (key & Hin & Hsome)].
    + left. apply replaced_step; assumption.
    + apply elem_of_cons in Hin. destruct Hin as [<- | Hin].
      * left. simpl. apply replaced_click; assumption.
      * right. exists key. auto.
Qed.

(** ** Teardown *)

Ltac run_cleanup :=
  open_inv; unfold unmount; wproj; wsimpl;
  rewrite !bool_decide_eq_true_2 by assumption; wsimpl.

Lemma unmount_trace (w : World) :
  Inv w ->
  exists h,
    animRef w = Some h /\ h <> 0 /\
    trace_since w (unmount w) =
    [ EvLog "🧹 Limpiando escena..." None;
      EvRemoveEventListener the_handler;
      EvCancelAnimationFrame h;
      EvDispose renderer_id;
      EvDispose cube_geometry_id;
      EvDispose material_id;
      EvSceneClear scene_id ].
Proof.
  run_cleanup. eexists. split; [reflexivity |]. split; [assumption |].
  apply trace_since_app. wproj. rewrite <- !app_assoc. reflexivity.
Qed.

Lemma unmount_heap (w : World) :
  Inv w ->
  heap (unmount w) =
  alter (scene_with_children (fun _ => [])) scene_id
    (alter dispose_obj material_id
       (alter dispose_obj cube_geometry_id
          (alter dispose_obj renderer_id (heap w)))).
Proof. run_cleanup. reflexivity. Qed.

Lemma unmount_currentMeshRef (w : World) :
  Inv w -> currentMeshRef (unmount w) = Some mesh_id.
Proof. run_cleanup. reflexivity. Qed.

Lemma unmount_attached_shape (w : World) :
  Inv w -> attached_shape (unmount w) = attached_shape w.
Proof.
  intros HI. destruct (Inv_active_mesh w HI) as (m & Hact & Hm & _).
  unfold attached_shape, active_mesh.
  rewrite (unmount_currentMeshRef w HI), (unmount_heap w HI),
    (inv_meshRef w HI).
  unfold_ids. heap_lookup. rewrite Hm. reflexivity.
Qed.

(** C10.  The cleanup disposes the objects its closure captured when the
    scene was initialized: the renderer, the initial cube Shape and the
    Material (which is still the Mesh's Material), whatever Shape is attached
    by then.  So in every run with at least one geometry replacement the
    attached Shape gets no [dispose()] from the teardown and stays
    undisposed, while the initial cube, already disposed once by the first
    replacement, is disposed a second time. *)
Theorem teardown_disposes_captured_not_attached
    (store : gmap string string) (c : Container) (dpr : Q)
    (actions : list Action) :
  let w := run_actions actions (mount store (Some c) dpr) in
  let w' := unmount w in
  scene_cleanup w = scene_cleanup (mount store (Some c) dpr) /\
  cl_geometry <$> scene_cleanup w = Some cube_geometry_id /\
  cl_material <$> scene_cleanup w = material <$> active_mesh w /\
  attached_shape (mount store (Some c) dpr) = Some cube_geometry_id /\
  disposals (trace_since w w') = [renderer_id; cube_geometry_id; material_id] /\
  (geometry_clicked actions ->
   exists g,
     attached_shape w = Some g /\
     attached_shape w' = Some g /\
     g <> cube_geometry_id /\
     (g ∉ disposals (trace_since w w')) /\
     dispose_count g w = 0 /\
     dispose_count g w' = 0 /\
     dispose_count cube_geometry_id w = 1 /\
     dispose_count cube_geometry_id w' = 2).
Proof.
  cbv zeta.
  pose proof (Inv_mount store c dpr) as HI0.
  pose proof (Inv_run store c dpr actions) as HI.
  set (w := run_actions actions (mount store (Some c) dpr)) in *.
  destruct (unmount_trace w HI) as (h & _ & _ & Htr).
  destruct (Inv_active_mesh w HI) as (m & Hact & Hm & Hmat & _ & Hu & _).
  assert (Hdisp : disposals (trace_since w (unmount w)) =
                  [renderer_id; cube_geometry_id; material_id])
    by (rewrite Htr; reflexivity).
  split; [rewrite (inv_cleanup w HI), (inv_cleanup _ HI0); reflexivity |].
  split; [rewrite (inv_cleanup w HI); reflexivity |].
  split; [rewrite (inv_cleanup w HI), Hact; simpl; congruence |].
  split.
  { unfold mount, mount_effects, first_render.
    generalize (init_wireframe store) (init_autoRotate store).
    intros wf ar. destruct ar.
    all: erewrite apply_wireframe_unfold;
      [| wsimpl; reflexivity | wsimpl; heap_lookup; reflexivity].
    all: unfold attached_shape, active_mesh; wsimpl; cbn [material];
      heap_lookup; reflexivity. }
  split; [exact Hdisp |].
  intros Hclicked.
  destruct (replaced_run actions _ HI0 (or_intror Hclicked)) as (g & Hg & Hle).
  fold w in Hg.
  assert (Hgm : geometry m = g).
  { unfold attached_shape in Hg. rewrite Hact in Hg. simpl in Hg. congruence. }
  destruct (inv_mesh w HI) as (m' & n & Hm' & _ & _ & _ & Hc & _ & Hn1).
  assert (m' = m) by congruence. subst m'.
  destruct Hu as (b & Hb). rewrite Hgm in Hb.
  exists g. unfold dispose_count.
  rewrite (unmount_attached_shape w HI), (unmount_heap w HI), Hdisp.
  unfold_ids. heap_lookup. rewrite Hb, Hc, Hn1 by lia.
  repeat split; try reflexivity; try assumption; try lia.
  rewrite !elem_of_cons, elem_of_nil. lia.
Qed.

(** Mount, click Esfera, unmount. *)
Lemma teardown_disposes_captured_not_attached_witness :
  let w := run_actions [ClickGeometry "Esfera"] mounted in
  let w' := unmount w in
  exists g,
    attached_shape w = Some g /\
    attached_shape w' = Some g /\
    g <> cube_geometry_id /\
    (g ∉ disposals (trace_since w w')) /\
    dispose_count g w = 0 /\
    dispose_count g w' = 0 /\
    dispose_count cube_geometry_id w = 1 /\
    dispose_count cube_geometry_id w' = 2.
Proof.
  destruct (teardown_disposes_captured_not_attached
              ∅ (div 800 600) 1 [ClickGeometry "Esfera"])
    as (_ & _ & _ & _ & _ & H).
  apply H. exists "Esfera". split.
  - apply list_elem_of_In. simpl. tauto.
  - eexists. reflexivity.
Defined.

(** C2.  The run "mount with an empty store, click Esfera, unmount": the
    teardown deregisters the resize handler, cancels the pending frame,
    disposes the renderer, then calls [dispose()] on the initial cube Shape
    (for the second time) instead of the attached sphere, which is never
    disposed; then it disposes the Material and clears the scene. *)
Theorem teardown_after_replacement_misses_attached_shape :
  let w := run_actions [ClickGeometry "Esfera"] mounted in
  let w' := unmount w in
  attached_shape w = Some 10 /\
  heap w !! 10 = Some (OGeometry (mkGeometry (SphereGeometry 1 32 16) 0)) /\
  dispose_count cube_geometry_id w = 1 /\
  trace_since w w' =
    [ EvLog "🧹 Limpiando escena..." None;
      EvRemoveEventListener the_handler;
      EvCancelAnimationFrame 1;
      EvDispose renderer_id;
      EvDispose cube_geometry_id;
      EvDispose material_id;
      EvSceneClear scene_id ] /\
  attached_shape w' = Some 10 /\
  dispose_count 10 w' = 0 /\
  dispose_count cube_geometry_id w' = 2.
Proof. vm_compute. repeat split. Qed.

(** ** The wireframe toggle *)

Lemma click_wireframe_state (w : World) :
  st_wireframe (click_wireframe w) = negb (st_wireframe w).
Proof.
  unfold click_wireframe.
  destruct (apply_wireframe_same_prefs
              (sync_wireframe (set_st_wireframe (negb (st_wireframe w)) w)))
    as (-> & _).
  destruct w. reflexivity.
Qed.

(** C6.  In any mounted world, the active Material's wireframe flag equals
    the wireframe state; one click on the toggle negates both and a second
    click restores them, and after each click the store holds the current
    value under ["wireframe"] as ["true"] or ["false"].  In particular
    false, true, false ends with the flag [false] and the stored string
    ["false"]. *)
Theorem wireframe_toggle_round_trip
    (store : gmap string string) (c : Container) (dpr : Q)
    (actions : list Action) :
  let w := run_actions actions (mount store (Some c) dpr) in
  let w1 := click_wireframe w in
  let w2 := click_wireframe w1 in
  wireframe <$> active_material w = Some (st_wireframe w) /\
  wireframe <$> active_material w1 = Some (negb (st_wireframe w)) /\
  wireframe <$> active_material w2 = wireframe <$> active_material w /\
  getItem "wireframe" (localStorage w1) =
    Some (String_of_bool (negb (st_wireframe w))) /\
  getItem "wireframe" (localStorage w2) =
    Some (String_of_bool (st_wireframe w)) /\
  (st_wireframe w = false ->
   wireframe <$> active_material w1 = Some true /\
   getItem "wireframe" (localStorage w1) = Some "true" /\
   wireframe <$> active_material w2 = Some false /\
   getItem "wireframe" (localStorage w2) = Some "false").
Proof.
  cbv zeta.
  pose proof (Inv_run store c dpr actions) as HI.
  set (w := run_actions actions (mount store (Some c) dpr)) in *.
  pose proof (Inv_click_wireframe w HI) as HI1.
  pose proof (Inv_click_wireframe _ HI1) as HI2.
  destruct (Inv_active_material _ HI) as (mat & -> & Hw & _).
  destruct (Inv_active_material _ HI1) as (mat1 & -> & Hw1 & _).
  destruct (Inv_active_material _ HI2) as (mat2 & -> & Hw2 & _).
  unfold getItem.
  rewrite (inv_store_wireframe _ HI1), (inv_store_wireframe _ HI2).
  rewrite !click_wireframe_state, negb_involutive in *.
  simpl. rewrite Hw, Hw1, Hw2.
  split; [reflexivity |]. split; [reflexivity |]. split; [reflexivity |].
  split; [reflexivity |]. split; [reflexivity |].
  intros ->. repeat split.
Qed.

(** Two clicks on the toggle after a replacement and a frame, starting from
    wireframe off. *)
Lemma wireframe_toggle_round_trip_witness :
  let w := run_actions [ClickGeometry "Toro"; AnimationFrame] mounted in
  let w1 := click_wireframe w in
  let w2 := click_wireframe w1 in
  wireframe <$> active_material w1 = Some true /\
  getItem "wireframe" (localStorage w1) = Some "true" /\
  wireframe <$> active_material w2 = Some false /\
  getItem "wireframe" (localStorage w2) = Some "false".
Proof.
  destruct (wireframe_toggle_round_trip
              ∅ (div 800 600) 1 [ClickGeometry "Toro"; AnimationFrame])
    as (_ & _ & _ & _ & _ & H).
  apply H. vm_compute. reflexivity.
Defined.

(** ** Mirror cells *)

Lemma same_prefs_mirrors (w w' : World) :
  same_prefs w w' -> mirrors_untouched w w'.
Proof. intros (_ & _ & H1 & H2). split; assumption. Qed.

Lemma same_prefs_mirror_ok (w w' : World) :
  same_prefs w w' -> mirror_ok w -> mirror_ok w'.
Proof. unfold same_prefs, mirror_ok. intuition congruence. Qed.

Lemma click_wireframe_mirror_ok (w : World) :
  mirror_ok w -> mirror_ok (click_wireframe w).
Proof.
  intros [_ Ha]. unfold click_wireframe.
  apply (same_prefs_mirror_ok _ _ (apply_wireframe_same_prefs _)).
  destruct w. split; [reflexivity | exact Ha].
Qed.

Lemma click_autoRotate_mirror_ok (w : World) :
  mirror_ok w -> mirror_ok (click_autoRotate w).
Proof.
  intros [Hw _]. unfold click_autoRotate.
  destruct w. split; [exact Hw | reflexivity].
Qed.

Lemma step_mirror_ok (w : World) (a : Action) :
  mirror_ok w -> mirror_ok (step w a).
Proof.
  destruct a; simpl.
  - apply same_prefs_mirror_ok, click_geometry_same_prefs.
  - apply click_autoRotate_mirror_ok.
  - apply click_wireframe_mirror_ok.
  - apply same_prefs_mirror_ok, animation_frame_same_prefs.
  - apply same_prefs_mirror_ok, resize_same_prefs.
Qed.

Lemma run_actions_mirror_ok (actions : list Action) (w : World) :
  mirror_ok w -> mirror_ok (run_actions actions w).
Proof.
  revert w. induction actions as [| a actions IH]; intros w H; simpl.
  - exact H.
  - apply IH, step_mirror_ok, H.
Qed.

(** C8.  The mirror cells start equal to the reactive booleans and are
    equal to them after the mount effects and after every later commit (every
    prefix of every run, with or without a container).  The two sync effects
    are the only writers: each writes its own cell with the current state and
    leaves the other cell alone, and the scene effect, the wireframe effect,
    [replaceGeometry] on a catalog factory, [animate], [handleResize], the
    cleanup, and the host-driven frame and resize write neither. *)
Theorem mirror_cells_follow_state :
  (forall store c dpr, mirror_ok (first_render store c dpr)) /\
  (forall store c dpr actions,
      mirror_ok (run_actions actions (mount store c dpr))) /\
  (forall w,
      wireframeRef (sync_wireframe w) = st_wireframe w /\
      autoRotateRef (sync_wireframe w) = autoRotateRef w /\
      autoRotateRef (sync_autoRotate w) = st_autoRotate w /\
      wireframeRef (sync_autoRotate w) = wireframeRef w) /\
  (forall w,
      mirrors_untouched w (init_scene w) /\
      mirrors_untouched w (apply_wireframe w) /\
      (forall key, mirrors_untouched w (click_geometry key w)) /\
      (forall self, mirrors_untouched w (animate self w)) /\
      (forall self, mirrors_untouched w (handleResize self w)) /\
      (forall self, mirrors_untouched w (cleanup self w)) /\
      mirrors_untouched w (animation_frame w) /\
      (forall width height, mirrors_untouched w (resize width height w)) /\
      mirrors_untouched w (unmount w)).
Proof.
  split; [intros; split; reflexivity |].
  split.
  { intros store c dpr actions. apply run_actions_mirror_ok.
    destruct (mount_prefs store c dpr) as (H1 & H2 & H3 & H4).
    split; congruence. }
  split; [intros w; destruct w; repeat split |].
  intros w.
  split; [apply same_prefs_mirrors, init_scene_same_prefs |].
  split; [apply same_prefs_mirrors, apply_wireframe_same_prefs |].
  split; [intros; apply same_prefs_mirrors, click_geometry_same_prefs |].
  split; [intros; apply same_prefs_mirrors, animate_same_prefs |].
  split; [intros; apply same_prefs_mirrors, handleResize_same_prefs |].
  split; [intros; apply same_prefs_mirrors, cleanup_same_prefs |].
  split; [apply same_prefs_mirrors, animation_frame_same_prefs |].
  split; [intros; apply same_prefs_mirrors, resize_same_prefs |].
  apply same_prefs_mirrors, unmount_same_prefs.
Qed.

(** ** What a replacement leaves alone *)

(** C9.  In any mounted world the scene holds the two lights, the Mesh and
    the two helpers, and the camera is the one of [cameraRef].  A click on
    any catalog button leaves the camera, the lights, the helpers (and the
    scene's child list, the renderer and the Material) exactly as they were;
    the Mesh keeps its Material and its rotation; no field of the world other
    than the heap, the identity counter and the trace changes. *)
Theorem replacement_leaves_scene_fixtures
    (store : gmap string string) (c : Container) (dpr : Q)
    (actions : list Action) (key : string) :
  let w := run_actions actions (mount store (Some c) dpr) in
  let w' := click_geometry key w in
  cameraRef w = Some camera_id /\
  heap w !! scene_id =
    Some (OScene (mkScene 0x0a0a0a%N
                          [ambient_id; dir_id; mesh_id; axes_id; grid_id])) /\
  heap w !! ambient_id = Some (OAmbientLight 0xffffff%N 0.35%Q) /\
  heap w !! dir_id = Some (ODirectionalLight 0xffffff%N 0.9%Q (5, 5, 5)%Q) /\
  heap w !! axes_id = Some (OAxesHelper 2) /\
  heap w !! grid_id = Some (OGridHelper 10 10 0x444444%N 0x222222%N) /\
  Forall (fun id => heap w' !! id = heap w !! id) scene_fixtures /\
  material <$> active_mesh w' = material <$> active_mesh w /\
  rotation_x <$> active_mesh w' = rotation_x <$> active_mesh w /\
  rotation_y <$> active_mesh w' = rotation_y <$> active_mesh w /\
  set_heap (heap w) (set_next_id (next_id w) (set_trace (trace w) w')) = w.
Proof.
  cbv zeta.
  pose proof (Inv_run store c dpr actions) as HI.
  generalize dependent (run_actions actions (mount store (Some c) dpr)).
  intros w HI.
  split; [apply (inv_cameraRef w HI) |].
  split; [apply (inv_scene w HI) |].
  split; [apply (inv_ambient w HI) |].
  split; [apply (inv_dir w HI) |].
  split; [apply (inv_axes w HI) |].
  split; [apply (inv_grid w HI) |].
  unfold click_geometry.
  destruct (entry_of key geometries) as [e|] eqn:He.
  2: { split; [unfold scene_fixtures; repeat constructor |].
       split; [reflexivity |]. split; [reflexivity |].
       split; [reflexivity |]. destruct w. reflexivity. }
  destruct (catalog_factory key e (entry_of_elem key e He)) as (b & -> & _).
  destruct (Inv_active_mesh w HI) as (m & Hact & Hm & _ & Hg & _ & Hlt).
  pose proof (inv_next w HI) as Hnext.
  pose proof (inv_meshRef w HI) as Href.
  split.
  { unfold scene_fixtures. unfold_ids.
    repeat (apply Forall_cons; split;
            [apply (replaceGeometry_other b w 7 m Href Hm); lia |]).
    constructor. }
  unfold active_mesh.
  rewrite (replaceGeometry_currentMeshRef b w mesh_id m Href Hm).
  rewrite (replaceGeometry_mesh b w mesh_id m Href Hm (inv_fresh w HI)).
  rewrite Href, Hm.
  split; [reflexivity |]. split; [reflexivity |]. split; [reflexivity |].
  apply (replaceGeometry_frame b w mesh_id m Href Hm).
Qed.

(** ** The render loop *)

Lemma animation_frame_mesh (w : World) :
  Inv w ->
  exists m,
    active_mesh w = Some m /\
    active_mesh (animation_frame w) =
      Some (if st_autoRotate w then rotated_once m else m) /\
    st_autoRotate (animation_frame w) = st_autoRotate w.
Proof.
  open_inv. unfold animation_frame. wproj. cbn [fold_left snd].
  eexists. unfold active_mesh. wproj. use_heap_hyps.
  split; [reflexivity |].
  destruct st_autoRotate0; wsimpl; heap_lookup; use_heap_hyps;
    split; reflexivity.
Qed.

Lemma frames_mesh (N : nat) (w : World) :
  Inv w ->
  exists m m',
    active_mesh w = Some m /\
    active_mesh (run_actions (frames N) w) = Some m' /\
    geometry m' = geometry m /\
    material m' = material m /\
    (st_autoRotate w = false -> m' = m) /\
    (st_autoRotate w = true ->
     (rotation_x m' == rotation_x m + inject_Z (Z.of_nat N) * 0.01)%Q /\
     (rotation_y m' == rotation_y m + inject_Z (Z.of_nat N) * 0.015)%Q).
Proof.
  revert w. induction N as [| N IH]; intros w HI.
  - destruct (Inv_active_mesh w HI) as (m & Hm & _).
    exists m, m. simpl. repeat split; try assumption; ring.
  - destruct (animation_frame_mesh w HI) as (m & Hm & Hm1 & Hst).
    destruct (IH _ (Inv_animation_frame w HI))
      as (m1 & m' & Hm1' & Hm' & Hg & Hmat & Hoff & Hon).
    rewrite Hm1 in Hm1'. injection Hm1' as <-. rewrite Hst in *.
    exists m, m'. split; [exact Hm |]. split; [exact Hm' |].
    destruct (st_autoRotate w).
    + split; [exact Hg |]. split; [exact Hmat |].
      split; [discriminate |]. intros _.
      destruct (Hon eq_refl) as [Hx Hy].
      rewrite Hx, Hy, Nat2Z.inj_succ, <- Z.add_1_r, inject_Z_plus.
      unfold rotated_once. cbn [rotation_x rotation_y].
      split; ring.
    + split; [exact Hg |]. split; [exact Hmat |].
      split; [| discriminate]. exact Hoff.
Qed.

(** C5.  In any mounted world, [N] animation frames in a row leave the
    Mesh's rotation angles as they are when auto-rotate is false (the Mesh is
    untouched), and add exactly [N * 0.01] to the x angle and [N * 0.015] to
    the y angle when auto-rotate is true; numbers are exact rationals. *)
Theorem frames_advance_rotation
    (store : gmap string string) (c : Container) (dpr : Q)
    (actions : list Action) (N : nat) :
  let w := run_actions actions (mount store (Some c) dpr) in
  let w' := run_actions (frames N) w in
  exists m m',
    active_mesh w = Some m /\
    active_mesh w' = Some m' /\
    (st_autoRotate w = false ->
     rotation_x m' = rotation_x m /\ rotation_y m' = rotation_y m) /\
    (st_autoRotate w = true ->
     (rotation_x m' == rotation_x m + inject_Z (Z.of_nat N) * 0.01)%Q /\
     (rotation_y m' == rotation_y m + inject_Z (Z.of_nat N) * 0.015)%Q).
Proof.
  cbv zeta.
  destruct (frames_mesh N _ (Inv_run store c dpr actions))
    as (m & m' & Hm & Hm' & _ & _ & Hoff & Hon).
  exists m, m'. split; [exact Hm |]. split; [exact Hm' |].
  split; [| exact Hon].
  intros H. rewrite (Hoff H). split; reflexivity.
Qed.

(** Three frames right after mount (auto-rotate on), and three frames after
    one click on the auto-rotate toggle (off). *)
Lemma frames_advance_rotation_witness :
  (let w := run_actions [] (mount ∅ (Some (div 800 600)) 1) in
   let w' := run_actions (frames 3) w in
   exists m m',
     active_mesh w = Some m /\
     active_mesh w' = Some m' /\
     (rotation_x m' == rotation_x m + inject_Z (Z.of_nat 3) * 0.01)%Q /\
     (rotation_y m' == rotation_y m + inject_Z (Z.of_nat 3) * 0.015)%Q) /\
  (let w := run_actions [ClickAutoRotate] (mount ∅ (Some (div 800 600)) 1) in
   let w' := run_actions (frames 3) w in
   exists m m',
     active_mesh w = Some m /\
     active_mesh w' = Some m' /\
     rotation_x m' = rotation_x m /\ rotation_y m' = rotation_y m).
Proof.
  split.
  - destruct (frames_advance_rotation ∅ (div 800 600) 1 [] 3)
      as (m & m' & Hm & Hm' & _ & Hon).
    exists m, m'. split; [exact Hm |]. split; [exact Hm' |].
    apply Hon. vm_compute. reflexivity.
  - destruct (frames_advance_rotation ∅ (div 800 600) 1 [ClickAutoRotate] 3)
      as (m & m' & Hm & Hm' & Hoff & _).
    exists m, m'. split; [exact Hm |]. split; [exact Hm' |].
    apply Hoff. vm_compute. reflexivity.
Defined.

(** ** The order of steps inside a replacement *)

(** C3, as stated, fails: on the mounted world and the sphere factory the
    engine calls are factory, attachment, dispose, so the dispose of the old
    Shape does not precede the attachment of the new one; and between the
    factory call and the dispose two undisposed Shapes exist. *)
Lemma replaceGeometry_order_counterexample :
  let createGeometry := new_geometry (SphereGeometry 1 32 16) in
  let w' := replaceGeometry createGeometry mounted in
  engine_calls (trace_since mounted w') =
    [EvNew 10; EvSetGeometry mesh_id 10; EvDispose cube_geometry_id] /\
  ~ dispose_then_attach (trace_since mounted w') /\
  (size ∘ undisposed_shapes <$> replaceGeometry_states createGeometry mounted)
    = [1; 2; 2; 1; 1].
Proof.
  cbv zeta. split; [vm_compute; reflexivity |].
  split; [| vm_compute; reflexivity].
  intros (mesh & old & new & H). vm_compute in H. discriminate H.
Qed.

(** C3, amended.  With an active Mesh whose Shape is undisposed, a
    replacement by a catalog factory goes through these steps in this order:
    the factory makes the new Shape, the new Shape is attached to the Mesh,
    the old Shape is disposed (then a console line).  At every point the Mesh
    has exactly one Shape attached and that Shape is undisposed; the old and
    the new Shape are both undisposed from the factory call until the
    dispose, and only the new one afterwards. *)
Theorem replaceGeometry_attaches_then_disposes :
  forall key e w mesh m b0,
    (key, e) ∈ geometries ->
    currentMeshRef w = Some mesh ->
    heap w !! mesh = Some (OMesh m) ->
    heap w !! geometry m = Some (OGeometry (mkGeometry b0 0)) ->
    heap_fresh w ->
    let old := geometry m in
    let new := next_id w in
    exists w1 w2 w3 w4,
      replaceGeometry_states (create e) w = [w; w1; w2; w3; w4] /\
      replaceGeometry (create e) w = w4 /\
      trace_since w w1 = [EvNew new] /\
      trace_since w1 w2 = [EvSetGeometry mesh new] /\
      trace_since w2 w3 = [EvDispose old] /\
      engine_calls (trace_since w3 w4) = [] /\
      attach_then_dispose (trace_since w w4) /\
      (attached_shape <$> [w; w1; w2; w3; w4]) =
        (Some <$> [old; old; new; new; new]) /\
      Forall (fun s => exists g, attached_shape s = Some g /\ undisposed s g)
             [w; w1; w2; w3; w4] /\
      (undisposed w1 old /\ undisposed w1 new) /\
      (undisposed w2 old /\ undisposed w2 new) /\
      (~ undisposed w3 old /\ undisposed w3 new) /\
      (~ undisposed w4 old /\ undisposed w4 new).
Proof.
  intros key e w mesh m b0 Hin Href Hmesh Hold Hfresh.
  destruct (catalog_factory key e Hin) as (b & -> & _).
  pose proof (heap_fresh_lookup_lt _ _ _ Hfresh Hmesh) as Hlt1.
  pose proof (heap_fresh_lookup_lt _ _ _ Hfresh Hold) as Hlt2.
  assert (Hne : mesh <> geometry m) by congruence.
  clear Hfresh. cbv zeta. unfold replaceGeometry_states, replaceGeometry.
  rewrite Href, Hmesh.
  destruct w. wproj. subst. wsimpl.
  eexists _, _, _, _. split; [reflexivity |]. split; [reflexivity |].
  unfold trace_since, attach_then_dispose, attached_shape, active_mesh,
    undisposed.
  wproj.
  split; [apply drop_app_length |].
  split; [apply drop_app_length |].
  split; [apply drop_app_length |].
  split; [rewrite drop_app_length; reflexivity |].
  split.
  { exists mesh, (geometry m), next_id0.
    rewrite <- !app_assoc, drop_app_length. reflexivity. }
  cbn [fmap list_fmap]. wproj. heap_lookup. use_heap_hyps.
  cbn [fmap option_fmap option_map mesh_with_geometry dispose_obj geometry
       shape geometry_disposed].
  split; [reflexivity |].
  split.
  { repeat (apply Forall_cons; split;
            [wproj; heap_lookup; use_heap_hyps;
             cbn [fmap option_fmap option_map mesh_with_geometry geometry];
             eexists; split; [reflexivity |];
             heap_lookup; use_heap_hyps; eexists; reflexivity |]).
    constructor. }
  repeat match goal with |- _ /\ _ => split end;
    try (eexists; reflexivity);
    intros (b1 & Hb1); discriminate Hb1.
Qed.

(** The cone factory replacing the initial cube in the mounted world. *)
Lemma replaceGeometry_attaches_then_disposes_witness :
  exists w1 w2 w3 w4,
    replaceGeometry_states (new_geometry (ConeGeometry 1 2 16)) mounted =
      [mounted; w1; w2; w3; w4] /\
    replaceGeometry (new_geometry (ConeGeometry 1 2 16)) mounted = w4 /\
    trace_since mounted w1 = [EvNew 10] /\
    trace_since w1 w2 = [EvSetGeometry 7 10] /\
    trace_since w2 w3 = [EvDispose 5] /\
    engine_calls (trace_since w3 w4) = [] /\
    attach_then_dispose (trace_since mounted w4) /\
    (attached_shape <$> [mounted; w1; w2; w3; w4]) =
      (Some <$> [5; 5; 10; 10; 10]) /\
    Forall (fun s => exists g, attached_shape s = Some g /\ undisposed s g)
           [mounted; w1; w2; w3; w4] /\
    (undisposed w1 5 /\ undisposed w1 10) /\
    (undisposed w2 5 /\ undisposed w2 10) /\
    (~ undisposed w3 5 /\ undisposed w3 10) /\
    (~ undisposed w4 5 /\ undisposed w4 10).
Proof.
  apply (replaceGeometry_attaches_then_disposes
           "Cono" (mkEntry "Cono" (new_geometry (ConeGeometry 1 2 16)))
           mounted 7 (mkMesh 5 6 (0 + 0.01) (0 + 0.015))
           (BoxGeometry 1.5 1.5 1.5)).
  - apply list_elem_of_In. simpl. tauto.
  - reflexivity.
  - vm_compute. reflexivity.
  - vm_compute. reflexivity.
  - exact mounted_heap_fresh.
Defined.

(** * Further properties of the component *)

Lemma Fixtures_mount (store : gmap string string) (c : Container) (dpr : Q) :
  Fixtures (dom_children c) dpr (mount store (Some c) dpr).
Proof.
  unfold mount, mount_effects, first_render.
  generalize (init_wireframe store) (init_autoRotate store).
  intros wf ar. destruct ar.
  all: erewrite apply_wireframe_unfold;
    [| wsimpl; reflexivity | wsimpl; heap_lookup; reflexivity].
  all: wsimpl; cbn [geometry material].
  all: split; wproj; unfold_ids.
  all: try (eexists _, _); heap_lookup.
  all: repeat split; reflexivity.
Qed.

(** Opening both invariants of a world given by its fields. *)
Ltac open_fixtures :=
  intros [] HI; revert HI; open_inv;
  repeat match goal with
         | H1 : ?h !! ?k = Some _, H2 : ?h !! ?k = Some _ |- _ =>
             rewrite H1 in H2; simplify_eq
         end.

Ltac fixtures_routine :=
  split; wproj; unfold_ids;
  try (eexists _, _); heap_lookup; use_heap_hyps;
  cbn [fmap option_fmap option_map camera_with renderer_with
       material_with_wireframe fov aspect near far camera_position
       projection_updates antialias drawing_size pixelRatio
       renderer_disposed color wireframe needsUpdate material_disposed
       rect_width rect_height dom_children];
  repeat split; try reflexivity; try assumption.

Lemma Fixtures_step (kids : list nat) (dpr : Q) (w : World) (a : Action) :
  Fixtures kids dpr w -> Inv w -> Fixtures kids dpr (step w a).
Proof.
  destruct a as [key | | | | width height]; cbn [step].
  - unfold click_geometry.
    destruct (entry_of key geometries) as [e|] eqn:He; [| auto].
    destruct (catalog_factory key e (entry_of_elem key e He)) as (b & -> & _).
    open_fixtures.
    match goal with
    | H : heap_fresh _, H' : _ !! geometry _ = Some _ |- _ =>
        pose proof (heap_fresh_lookup_lt _ _ _ H H') as Hlt; wproj
    end.
    unfold replaceGeometry; wproj; use_heap_hyps. wsimpl.
    fixtures_routine.
  - open_fixtures. unfold click_autoRotate. wsimpl. fixtures_routine.
  - open_fixtures. unfold click_wireframe, apply_wireframe. wsimpl.
    use_heap_hyps. wsimpl.
    match goal with H : material _ = 6 |- _ => rewrite H in * end.
    fixtures_routine.
  - intros HF HI. destruct (autoRotateRef w) eqn:Hauto;
      revert Hauto; revert HF HI; open_fixtures;
      intros Hauto; wproj; subst; unfold animation_frame; wproj;
      cbn [fold_left snd]; wsimpl; fixtures_routine.
  - open_fixtures. unfold resize, set_container. wproj. cbn [fold_left].
    wsimpl. fixtures_routine.
Qed.

Lemma Fixtures_run_actions (kids : list nat) (dpr : Q)
    (actions : list Action) (w : World) :
  Fixtures kids dpr w -> Inv w -> Fixtures kids dpr (run_actions actions w).
Proof.
  revert w. induction actions as [| a actions IH]; intros w HF HI; simpl.
  - exact HF.
  - apply IH; [apply Fixtures_step; assumption | apply Inv_step, HI].
Qed.

Lemma Fixtures_run (store : gmap string string) (c : Container) (dpr : Q)
    (actions : list Action) :
  Fixtures (dom_children c) dpr (run_actions actions (mount store (Some c) dpr)).
Proof.
  apply Fixtures_run_actions; [apply Fixtures_mount | apply Inv_mount].
Qed.





(** ** The render loop, call by call *)

Lemma animation_frame_calls (w : World) :
  Inv w ->
  trace (animation_frame w) =
    trace w ++ [EvRequestAnimationFrame (next_handle w);
                EvRender renderer_id scene_id camera_id] /\
  next_handle (animation_frame w) = S (next_handle w) /\
  animRef (animation_frame w) = Some (next_handle w) /\
  raf_queue (animation_frame w) = [(next_handle w, the_animate)].
Proof.
  intros HI. destruct (autoRotateRef w) eqn:Hauto;
    revert Hauto; revert HI; open_inv;
    intros Hauto; wproj; subst; unfold animation_frame; wproj;
    cbn [fold_left snd]; wsimpl; rewrite <- !app_assoc; repeat split.
Qed.

Lemma frames_calls (N : nat) (w : World) :
  Inv w ->
  trace (run_actions (frames N) w) = trace w ++ frame_calls (next_handle w) N.
Proof.
  revert w. induction N as [| N IH]; intros w HI.
  - simpl. symmetry. apply app_nil_r.
  - destruct (animation_frame_calls w HI) as (Htr & Hnext & _).
    change (run_actions (frames (S N)) w)
      with (run_actions (frames N) (animation_frame w)).
    rewrite (IH _ (Inv_animation_frame w HI)), Htr, Hnext, <- app_assoc.
    reflexivity.
Qed.

(** X3.  In a mounted component exactly one frame request is pending at any
    time and [animRef] holds its (non-zero) handle.  A frame makes exactly
    two calls, in this order: it requests the next frame, with a fresh
    handle, then draws the scene through the camera; so [N] frames in a row
    make [N] requests and [N] draw calls, alternating, and nothing else. *)
Theorem frame_requests_next_then_draws
    (store : gmap string string) (c : Container) (dpr : Q)
    (actions : list Action) (N : nat) :
  let w := run_actions actions (mount store (Some c) dpr) in
  let w' := run_actions (frames N) w in
  trace_since w w' = frame_calls (next_handle w) N /\
  next_handle w' = next_handle w + N /\
  exists h,
    h <> 0 /\ animRef w' = Some h /\ raf_queue w' = [(h, the_animate)].
Proof.
  cbv zeta.
  pose proof (Inv_run store c dpr actions) as HI.
  generalize dependent (run_actions actions (mount store (Some c) dpr)).
  intros w HI.
  split; [apply trace_since_app, frames_calls, HI |].
  split.
  - revert w HI. induction N as [| N IH]; intros w HI.
    + simpl. lia.
    + change (run_actions (frames (S N)) w)
        with (run_actions (frames N) (animation_frame w)).
      rewrite (IH _ (Inv_animation_frame w HI)).
      destruct (animation_frame_calls w HI) as (_ & -> & _). lia.
  - destruct (inv_raf _ (Inv_run_actions (frames N) w HI)) as (h & H1 & H2 & H3).
    exists h. auto.
Qed.

(** ** After the teardown *)

Ltac run_cleanup_full :=
  run_cleanup;
  repeat (rewrite filter_cons_False
            by (let H := fresh in intros H; apply H; reflexivity));
  rewrite ?filter_nil.

(** X4.  The teardown of a mounted component, in every run: it removes the
    one resize listener and cancels the one pending frame, so that a later
    animation frame does nothing at all and a later resize reaches no
    handler (the heap and the trace stay as they are); the renderer and the
    Material have been disposed exactly once and the scene has no children;
    the stored preferences and the state are not touched. *)
Theorem teardown_stops_loop_and_listener
    (store : gmap string string) (c : Container) (dpr : Q)
    (actions : list Action) :
  let w := run_actions actions (mount store (Some c) dpr) in
  let w' := unmount w in
  raf_queue w' = [] /\
  resize_listeners w' = [] /\
  dispose_count renderer_id w' = 1 /\
  dispose_count material_id w' = 1 /\
  heap w' !! scene_id = Some (OScene (mkScene 0x0a0a0a%N [])) /\
  animation_frame w' = w' /\
  (forall width height,
      heap (resize width height w') = heap w' /\
      trace (resize width height w') = trace w') /\
  localStorage w' = localStorage w /\
  same_prefs w w'.
Proof.
  cbv zeta.
  pose proof (Inv_run store c dpr actions) as HI.
  generalize dependent (run_actions actions (mount store (Some c) dpr)).
  intros w HI.
  split; [| split; [| split; [| split; [| split; [| split;
    [| split; [| split]]]]]]].
  9: apply unmount_same_prefs.
  all: revert HI; run_cleanup_full.
  - reflexivity.
  - reflexivity.
  - unfold dispose_count. wproj. heap_lookup. use_heap_hyps.
    cbn [fmap option_fmap option_map dispose_obj renderer_disposed].
    congruence.
  - unfold dispose_count. wproj. heap_lookup. use_heap_hyps.
    cbn [fmap option_fmap option_map dispose_obj material_disposed].
    congruence.
  - heap_lookup. use_heap_hyps. reflexivity.
  - unfold animation_frame. wproj. cbn [fold_left]. reflexivity.
  - intros width height. unfold resize. wproj.
    match goal with H : is_Some _ |- _ => destruct H as [c0 ->] end.
    unfold set_container. wproj.
    cbn [fold_left]. split; reflexivity.
  - reflexivity.
Qed.

(** ** Every Shape is accounted for *)

(** Case analysis on a lookup in a heap built from updates of known
    objects: the updated objects are not Shapes. *)
Ltac peel_updates :=
  repeat (first [rewrite lookup_alter | rewrite lookup_insert];
          case_decide;
          [subst; heap_lookup; use_heap_hyps;
           cbn [fmap option_fmap option_map mesh_rotated mesh_with_geometry
                material_with_wireframe camera_with renderer_with
                scene_with_children light_with_position];
           try (intros; discriminate) |]).

Lemma geometry_lookup_step (w : World) (a : Action) (id : nat) (g : Geometry) :
  Inv w -> no_catalog_click a ->
  heap (step w a) !! id = Some (OGeometry g) ->
  heap w !! id = Some (OGeometry g).
Proof.
  intros HI Ha. destruct a as [key | | | | width height]; cbn [step].
  - unfold click_geometry. rewrite (Ha key eq_refl). auto.
  - destruct w. auto.
  - revert HI. open_inv. unfold click_wireframe, apply_wireframe. wsimpl.
    use_heap_hyps. wsimpl.
    match goal with H : material _ = 6 |- _ => rewrite H in * end.
    peel_updates. auto.
  - destruct (autoRotateRef w) eqn:Hauto; revert Hauto; revert HI; open_inv;
      intros Hauto; wproj; subst; unfold animation_frame; wproj;
      cbn [fold_left snd]; wsimpl; peel_updates; auto.
  - revert HI. open_inv. unfold resize, set_container. wproj.
    match goal with H : is_Some _ |- _ => destruct H as [c0 ->] end.
    wproj. cbn [fold_left]. wsimpl. peel_updates. auto.
Qed.

Lemma mount_attached_shape (store : gmap string string) (c : Container)
    (dpr : Q) :
  attached_shape (mount store (Some c) dpr) = Some cube_geometry_id.
Proof.
  unfold mount, mount_effects, first_render.
  generalize (init_wireframe store) (init_autoRotate store).
  intros wf ar. destruct ar.
  all: erewrite apply_wireframe_unfold;
    [| wsimpl; reflexivity | wsimpl; heap_lookup; reflexivity].
  all: unfold attached_shape, active_mesh; wsimpl; cbn [material];
    heap_lookup; reflexivity.
Qed.

Lemma shapes_accounted_mount (store : gmap string string) (c : Container)
    (dpr : Q) :
  shapes_accounted (mount store (Some c) dpr).
Proof.
  intros id g. rewrite mount_attached_shape.
  unfold mount, mount_effects, first_render.
  generalize (init_wireframe store) (init_autoRotate store).
  intros wf ar. destruct ar.
  all: erewrite apply_wireframe_unfold;
    [| wsimpl; reflexivity | wsimpl; heap_lookup; reflexivity].
  all: wsimpl; cbn [geometry material]; unfold_ids.
  all: peel_updates.
  all: try (intros [= <-]; rewrite decide_True by reflexivity; reflexivity).
  all: rewrite lookup_empty; discriminate.
Qed.

Lemma shapes_accounted_replaceGeometry (b : BufferGeometry) (w : World) :
  Inv w -> shapes_accounted w ->
  shapes_accounted (replaceGeometry (new_geometry b) w).
Proof.
  intros HI Hs id g.
  destruct (Inv_active_mesh w HI) as (m & Hact & Hm & _ & Hg & (b0 & Hold) & Hlt).
  pose proof (inv_meshRef w HI) as Href.
  pose proof (inv_fresh w HI) as Hfresh.
  rewrite (replaceGeometry_attached b w HI).
  assert (Hatt : attached_shape w = Some (geometry m))
    by (unfold attached_shape; rewrite Hact; reflexivity).
  destruct (decide (id = next_id w)) as [-> | Hnew].
  { rewrite (replaceGeometry_new_shape b w mesh_id m Href Hm Hfresh) by lia.
    intros [= <-]. rewrite decide_True by reflexivity. reflexivity. }
  rewrite decide_False by congruence.
  destruct (decide (id = geometry m)) as [-> | Hne].
  { rewrite (replaceGeometry_old_shape b w mesh_id m Href Hm Hfresh _ Hold).
    intros [= <-]. reflexivity. }
  destruct (decide (id = mesh_id)) as [-> | Hmesh].
  { rewrite (replaceGeometry_mesh b w mesh_id m Href Hm Hfresh). discriminate. }
  rewrite (replaceGeometry_other b w mesh_id m Href Hm) by assumption.
  intros Hid. rewrite (Hs id g Hid), Hatt.
  rewrite decide_False by congruence. reflexivity.
Qed.

Lemma shapes_accounted_step (w : World) (a : Action) :
  Inv w -> shapes_accounted w -> shapes_accounted (step w a).
Proof.
  intros HI Hs.
  assert (Hother : no_catalog_click a -> shapes_accounted (step w a)).
  { intros Ha id g Hid.
    rewrite (attached_shape_step w a HI Ha).
    apply Hs, (geometry_lookup_step w a id g HI Ha Hid). }
  destruct a as [key | | | | width height];
    try (apply Hother; intros key; discriminate).
  destruct (entry_of key geometries) as [e|] eqn:He.
  - cbn [step]. unfold click_geometry. rewrite He.
    destruct (catalog_factory key e (entry_of_elem key e He)) as (b & -> & _).
    apply shapes_accounted_replaceGeometry; assumption.
  - apply Hother. intros key' [= <-]. exact He.
Qed.

Lemma shapes_accounted_run (store : gmap string string) (c : Container)
    (dpr : Q) (actions : list Action) :
  shapes_accounted (run_actions actions (mount store (Some c) dpr)).
Proof.
  pose proof (Inv_mount store c dpr) as HI.
  pose proof (shapes_accounted_mount store c dpr) as Hs.
  generalize dependent (mount store (Some c) dpr).
  induction actions as [| a actions IH]; intros w HI Hs; simpl.
  - exact Hs.
  - apply IH; [apply Inv_step, HI | apply shapes_accounted_step; assumption].
Qed.

(** X5.  Between mount and unmount no Shape leaks and none is disposed
    twice: at every point of every run exactly the attached Shape is
    undisposed, and every other Shape that was ever created (the initial
    cube once it is replaced, and every replaced catalog Shape) has been
    disposed exactly once. *)
Theorem shapes_disposed_once_while_mounted
    (store : gmap string string) (c : Container) (dpr : Q)
    (actions : list Action) :
  let w := run_actions actions (mount store (Some c) dpr) in
  (exists g, attached_shape w = Some g /\ undisposed w g) /\
  (forall id g,
      heap w !! id = Some (OGeometry g) ->
      geometry_disposed g = if decide (attached_shape w = Some id) then 0 else 1).
Proof.
  cbv zeta. split.
  - destruct (Inv_active_mesh _ (Inv_run store c dpr actions))
      as (m & Hact & _ & _ & _ & Hu & _).
    exists (geometry m). split; [| exact Hu].
    unfold attached_shape. rewrite Hact. reflexivity.
  - apply shapes_accounted_run.
Qed.

Lemma shapes_disposed_once_while_mounted_witness :
  let w := run_actions [ClickGeometry "Esfera"; ClickGeometry "Toro"]
                       (mount ∅ (Some (div 800 600)) 1) in
  geometry_disposed (mkGeometry (SphereGeometry 1 32 16) 1) =
  if decide (attached_shape w = Some 10) then 0 else 1.
Proof.
  apply (proj2 (shapes_disposed_once_while_mounted
                  ∅ (div 800 600) 1
                  [ClickGeometry "Esfera"; ClickGeometry "Toro"]) 10).
  vm_compute. reflexivity.
Defined.

Lemma attached_cube_run (actions : list Action) (w : World) :
  Inv w -> Forall no_catalog_click actions ->
  attached_shape w = Some cube_geometry_id ->
  attached_shape (run_actions actions w) = Some cube_geometry_id.
Proof.
  revert w. induction actions as [| a actions IH]; intros w HI Hno Hatt.
  - exact Hatt.
  - apply Forall_cons in Hno. destruct Hno as [Ha Hno]. simpl.
    apply IH; [apply Inv_step, HI | exact Hno |].
    rewrite (attached_shape_step w a HI Ha). exact Hatt.
Qed.

(** X6.  In a run without any click on a catalog button the initial cube
    stays attached and undisposed, and the teardown disposes it exactly
    once: after unmount every Shape of the heap has been disposed exactly
    once. *)
Theorem teardown_without_replacement_disposes_shape_once
    (store : gmap string string) (c : Container) (dpr : Q)
    (actions : list Action) :
  Forall no_catalog_click actions ->
  let w := run_actions actions (mount store (Some c) dpr) in
  let w' := unmount w in
  attached_shape w = Some cube_geometry_id /\
  dispose_count cube_geometry_id w = 0 /\
  dispose_count cube_geometry_id w' = 1 /\
  (forall id g, heap w' !! id = Some (OGeometry g) -> geometry_disposed g = 1).
Proof.
  intros Hno. cbv zeta.
  pose proof (Inv_run store c dpr actions) as HI.
  pose proof (shapes_accounted_run store c dpr actions) as Hs.
  pose proof (attached_cube_run actions _ (Inv_mount store c dpr) Hno
                (mount_attached_shape store c dpr)) as Hatt.
  generalize dependent (run_actions actions (mount store (Some c) dpr)).
  intros w HI Hs Hatt.
  destruct (inv_mesh w HI) as (m & n & Hm & _ & _ & _ & Hc & Hn0 & _).
  assert (Hgm : geometry m = cube_geometry_id).
  { unfold attached_shape, active_mesh in Hatt.
    rewrite (inv_meshRef w HI), Hm in Hatt. simpl in Hatt. congruence. }
  rewrite (Hn0 Hgm) in Hc.
  destruct (inv_renderer w HI) as (r & Hr & _).
  destruct (inv_material w HI) as (mat & Hmat & _).
  pose proof (inv_scene w HI) as Hscene.
  split; [exact Hatt |].
  unfold dispose_count. rewrite (unmount_heap w HI).
  unfold_ids. heap_lookup. rewrite Hc.
  split; [reflexivity |]. split; [reflexivity |].
  intros id g.
  repeat (rewrite lookup_alter; case_decide;
          [subst; heap_lookup;
           rewrite ?Hc, ?Hr, ?Hmat, ?Hscene; simpl;
           first [discriminate | intros [= <-]; reflexivity] |]).
  intros Hid. rewrite (Hs id g Hid), Hatt.
  rewrite decide_False by congruence. reflexivity.
Qed.

Lemma teardown_without_replacement_disposes_shape_once_witness :
  let w := run_actions [ClickWireframe; AnimationFrame; Resize 1024 768]
                       (mount ∅ (Some (div 800 600)) 1) in
  let w' := unmount w in
  attached_shape w = Some cube_geometry_id /\
  dispose_count cube_geometry_id w = 0 /\
  dispose_count cube_geometry_id w' = 1 /\
  (forall id g, heap w' !! id = Some (OGeometry g) -> geometry_disposed g = 1).
Proof.
  apply (teardown_without_replacement_disposes_shape_once
           ∅ (div 800 600) 1 [ClickWireframe; AnimationFrame; Resize 1024 768]).
  repeat constructor; intros key H; discriminate H.
Defined.

(** ** Persistence of the preferences *)

Lemma replaceGeometry_localStorage (b : BufferGeometry) (w : World) :
  localStorage (replaceGeometry (new_geometry b) w) = localStorage w.
Proof.
  destruct w. wsimpl.
  match goal with |- context [match ?r with Some _ => _ | None => _ end] =>
    destruct r as [mesh|] end; [| reflexivity].
  match goal with |- context [?h !! mesh] => destruct (h !! mesh) as [[]|] end;
    reflexivity.
Qed.

Lemma apply_wireframe_localStorage (w : World) :
  localStorage (apply_wireframe w) = localStorage w.
Proof.
  destruct w. wsimpl.
  match goal with |- context [match ?r with Some _ => _ | None => _ end] =>
    destruct r as [mesh|] end; [| reflexivity].
  match goal with |- context [?h !! mesh] => destruct (h !! mesh) as [[]|] end;
    reflexivity.
Qed.

Lemma animate_localStorage (self : AnimateClosure) (w : World) :
  localStorage (animate self w) = localStorage w.
Proof.
  destruct w. wsimpl.
  repeat match goal with
         | |- context [match ?b with _ => _ end] => is_var b; destruct b
         end; reflexivity.
Qed.

Lemma handleResize_localStorage (self : ResizeHandler) (w : World) :
  localStorage (handleResize self w) = localStorage w.
Proof.
  destruct w. wsimpl.
  repeat match goal with
         | |- context [match ?b with _ => _ end] => is_var b; destruct b
         end; reflexivity.
Qed.

Lemma cleanup_localStorage (self : CleanupClosure) (w : World) :
  localStorage (cleanup self w) = localStorage w.
Proof.
  destruct w. wsimpl.
  match goal with |- context [match ?r with Some _ => _ | None => _ end] =>
    destruct r as [h|] end; [| reflexivity].
  destruct (bool_decide (h <> 0)); reflexivity.
Qed.

Lemma fold_localStorage {A : Type} (f : World -> A -> World) (l : list A) :
  (forall w a, localStorage (f w a) = localStorage w) ->
  forall w, localStorage (fold_left f l w) = localStorage w.
Proof.
  intros Hf. induction l as [| a l IH]; intros w; simpl.
  - reflexivity.
  - rewrite IH. apply Hf.
Qed.

Lemma store_synced_click_geometry (key : string) (w : World) :
  store_synced w -> store_synced (click_geometry key w).
Proof.
  unfold store_synced, getItem. intros [Hw Ha].
  destruct (click_geometry_same_prefs key w) as (-> & -> & _).
  unfold click_geometry.
  destruct (entry_of key geometries) as [e|] eqn:He; [| auto].
  destruct (catalog_factory key e (entry_of_elem key e He)) as (b & -> & _).
  rewrite replaceGeometry_localStorage. auto.
Qed.

Lemma store_synced_click_autoRotate (w : World) :
  store_synced w -> store_synced (click_autoRotate w).
Proof.
  unfold store_synced, getItem. intros [Hw Ha].
  destruct w. wproj. unfold click_autoRotate. wsimpl.
  split; [rewrite lookup_insert_ne by discriminate; exact Hw |].
  apply lookup_insert_eq.
Qed.

Lemma store_synced_click_wireframe (w : World) :
  store_synced w -> store_synced (click_wireframe w).
Proof.
  unfold store_synced, getItem. intros [Hw Ha].
  unfold click_wireframe.
  destruct (apply_wireframe_same_prefs
              (sync_wireframe (set_st_wireframe (negb (st_wireframe w)) w)))
    as (-> & -> & _).
  rewrite apply_wireframe_localStorage.
  destruct w. wproj. wsimpl.
  split; [apply lookup_insert_eq |].
  rewrite lookup_insert_ne by discriminate. exact Ha.
Qed.

Lemma store_synced_animation_frame (w : World) :
  store_synced w -> store_synced (animation_frame w).
Proof.
  unfold store_synced, getItem. intros [Hw Ha].
  destruct (animation_frame_same_prefs w) as (-> & -> & _).
  unfold animation_frame.
  rewrite fold_localStorage by (intros; apply animate_localStorage).
  destruct w. auto.
Qed.

Lemma store_synced_resize (width height : Q) (w : World) :
  store_synced w -> store_synced (resize width height w).
Proof.
  unfold store_synced, getItem. intros [Hw Ha].
  destruct (resize_same_prefs width height w) as (-> & -> & _).
  unfold resize.
  rewrite fold_localStorage by (intros; apply handleResize_localStorage).
  destruct w. wproj.
  match goal with |- context [match ?b with _ => _ end] => destruct b end;
    auto.
Qed.

Lemma store_synced_step (w : World) (a : Action) :
  store_synced w -> store_synced (step w a).
Proof.
  intros Hs. destruct a as [key | | | | width height]; cbn [step].
  - apply store_synced_click_geometry, Hs.
  - apply store_synced_click_autoRotate, Hs.
  - apply store_synced_click_wireframe, Hs.
  - apply store_synced_animation_frame, Hs.
  - apply store_synced_resize, Hs.
Qed.

Lemma store_synced_mount (store : gmap string string) (c : option Container)
    (dpr : Q) :
  store_synced (mount store c dpr).
Proof.
  destruct c as [c|].
  - pose proof (Inv_mount store c dpr) as HI. split.
    + apply (inv_store_wireframe _ HI).
    + apply (inv_store_autoRotate _ HI).
  - unfold store_synced, getItem, mount, mount_effects, first_render. wsimpl.
    split; [| apply lookup_insert_eq].
    rewrite lookup_insert_ne by discriminate. apply lookup_insert_eq.
Qed.

Lemma store_synced_run_actions (actions : list Action) (w : World) :
  store_synced w -> store_synced (run_actions actions w).
Proof.
  revert w. induction actions as [| a actions IH]; intros w Hs; simpl.
  - exact Hs.
  - apply IH, store_synced_step, Hs.
Qed.

Lemma store_synced_reads_back (w : World) :
  store_synced w ->
  init_wireframe (localStorage w) = st_wireframe w /\
  init_autoRotate (localStorage w) = st_autoRotate w.
Proof.
  unfold store_synced, init_wireframe, init_autoRotate.
  intros [-> ->]. destruct (st_wireframe w), (st_autoRotate w);
    split; reflexivity.
Qed.

(** X7.  The store always holds the current preferences, with or without a
    container: at every point of every run, reading the store back with the
    state initializers gives the current wireframe and auto-rotate values,
    so a component mounted later on that store (any container) starts with
    exactly these values; the teardown does not write the store. *)
Theorem preferences_persist
    (store : gmap string string) (c : option Container) (dpr : Q)
    (actions : list Action) :
  let w := run_actions actions (mount store c dpr) in
  init_wireframe (localStorage w) = st_wireframe w /\
  init_autoRotate (localStorage w) = st_autoRotate w /\
  localStorage (unmount w) = localStorage w /\
  forall c' dpr',
    st_wireframe (mount (localStorage w) c' dpr') = st_wireframe w /\
    st_autoRotate (mount (localStorage w) c' dpr') = st_autoRotate w.
Proof.
  cbv zeta.
  pose proof (store_synced_run_actions actions _
                (store_synced_mount store c dpr)) as Hrun.
  generalize dependent (run_actions actions (mount store c dpr)).
  intros w Hrun.
  destruct (store_synced_reads_back w Hrun) as [Hw Ha].
  split; [exact Hw |]. split; [exact Ha |].
  split.
  - unfold unmount. destruct (scene_cleanup w); [| reflexivity].
    apply cleanup_localStorage.
  - intros c' dpr'.
    destruct (mount_prefs (localStorage w) c' dpr') as (-> & -> & _).
    split; assumption.
Qed.

(** ** Pausing and resuming the rotation *)





(** ** The wireframe click, object by object *)

(** X9.  A click on the wireframe button in a mounted world changes one
    object only, the Material: its wireframe flag is negated, its update
    marker is set, its colour and dispose count stay; every other heap
    object is untouched, and the only call besides console lines is the
    store write of the new value. *)
Theorem wireframe_click_touches_only_material
    (store : gmap string string) (c : Container) (dpr : Q)
    (actions : list Action) :
  let w := run_actions actions (mount store (Some c) dpr) in
  let w' := click_wireframe w in
  material <$> active_mesh w = Some material_id /\
  heap w !! material_id =
    Some (OMaterial (mkMaterial "#44aa88" (st_wireframe w) true 0)) /\
  heap w' !! material_id =
    Some (OMaterial (mkMaterial "#44aa88" (negb (st_wireframe w)) true 0)) /\
  (forall id, id <> material_id -> heap w' !! id = heap w !! id) /\
  engine_calls (trace_since w w') =
    [EvSetItem "wireframe" (String_of_bool (negb (st_wireframe w)))].
Proof.
  cbv zeta.
  pose proof (Inv_run store c dpr actions) as HI.
  pose proof (Fixtures_run store c dpr actions) as HF.
  generalize dependent (run_actions actions (mount store (Some c) dpr)).
  intros w HI HF.
  split.
  { destruct (Inv_active_mesh w HI) as (m & -> & _ & Hmat & _).
    simpl. rewrite Hmat. reflexivity. }
  split; [apply (fx_material _ _ _ HF) |].
  split.
  { pose proof (Fixtures_step _ _ w ClickWireframe HF HI) as HF'.
    cbn [step] in HF'. destruct HF' as [_ Hm'].
    rewrite click_wireframe_state in Hm'. exact Hm'. }
  split.
  - revert HI. revert HF. open_fixtures.
    unfold click_wireframe, apply_wireframe. wsimpl.
    use_heap_hyps. wsimpl.
    match goal with H : material _ = 6 |- _ => rewrite H in * end.
    intros id Hid. apply lookup_alter_ne. congruence.
  - revert HI. revert HF. open_fixtures.
    unfold click_wireframe, apply_wireframe. wsimpl.
    use_heap_hyps. wsimpl.
    unfold trace_since. wproj. rewrite <- !app_assoc, drop_app_length.
    reflexivity.
Qed.

Lemma wireframe_click_touches_only_material_witness :
  let w := run_actions [ClickGeometry "Cono"] (mount ∅ (Some (div 800 600)) 1) in
  heap (click_wireframe w) !! mesh_id = heap w !! mesh_id.
Proof.
  destruct (wireframe_click_touches_only_material
              ∅ (div 800 600) 1 [ClickGeometry "Cono"])
    as (_ & _ & _ & H & _).
  apply H. discriminate.
Defined.

(** ** What mount does *)


(** ** A component without a container *)






(** ** The buttons *)

Lemma elem_entry_of (key : string) (e : CatalogEntry) :
  (key, e) ∈ geometries -> entry_of key geometries = Some e.
Proof.
  intros H. apply list_elem_of_In in H. simpl in H.
  repeat (destruct H as [H | H]; [inversion H; subst; reflexivity |]).
  destruct H.
Qed.

Lemma click_wireframe_same_prefs (w : World) :
  st_wireframe (click_wireframe w) = negb (st_wireframe w) /\
  st_autoRotate (click_wireframe w) = st_autoRotate w.
Proof.
  unfold click_wireframe.
  destruct (apply_wireframe_same_prefs
              (sync_wireframe (set_st_wireframe (negb (st_wireframe w)) w)))
    as (-> & -> & _).
  destruct w. split; reflexivity.
Qed.

Lemma click_autoRotate_prefs (w : World) :
  st_autoRotate (click_autoRotate w) = negb (st_autoRotate w) /\
  st_wireframe (click_autoRotate w) = st_wireframe w.
Proof. destruct w. split; reflexivity. Qed.

(** X12.  The text of the two toggles always says what the next click will
    undo: the auto-rotate button reads "Pausar" exactly when the next frame
    rotates the Mesh and "Reanudar" exactly when it leaves the Mesh alone;
    the wireframe button reads "Sólido" exactly when the Material is drawn
    as wireframe.  A click on a toggle changes its own text and not the
    other's.  The panel lists the eight catalog labels in catalog order. *)
Theorem button_texts_match_behaviour
    (store : gmap string string) (c : Container) (dpr : Q)
    (actions : list Action) :
  let w := run_actions actions (mount store (Some c) dpr) in
  geometry_buttons (render w) =
    ["Esfera"; "Plano"; "Cono"; "Cilindro"; "Toro"; "Nudo Toroidal";
     "Círculo"; "Anillo"] /\
  (autoRotate_button (render w) = "⏸️ Pausar Rotación" /\
   active_mesh (animation_frame w) = rotated_once <$> active_mesh w
   \/
   autoRotate_button (render w) = "▶️ Reanudar Rotación" /\
   active_mesh (animation_frame w) = active_mesh w) /\
  (wireframe_button (render w) = "🔲 Sólido" /\
   wireframe <$> active_material w = Some true
   \/
   wireframe_button (render w) = "🔳 Wireframe" /\
   wireframe <$> active_material w = Some false) /\
  autoRotate_button (render (click_autoRotate w)) <>
    autoRotate_button (render w) /\
  wireframe_button (render (click_autoRotate w)) = wireframe_button (render w) /\
  wireframe_button (render (click_wireframe w)) <>
    wireframe_button (render w) /\
  autoRotate_button (render (click_wireframe w)) = autoRotate_button (render w).
Proof.
  cbv zeta.
  pose proof (Inv_run store c dpr actions) as HI.
  generalize dependent (run_actions actions (mount store (Some c) dpr)).
  intros w HI.
  split; [reflexivity |].
  destruct (animation_frame_mesh w HI) as (m & Hm & Hm' & _).
  destruct (Inv_active_material w HI) as (mat & Hmat & Hflag & _).
  destruct (click_wireframe_same_prefs w) as (_ & Hwa).
  unfold render. cbn [autoRotate_button wireframe_button].
  rewrite click_wireframe_state, Hwa, Hm, Hm', Hmat.
  destruct (click_autoRotate_prefs w) as (-> & ->).
  cbn [fmap option_fmap option_map]. rewrite Hflag.
  destruct (st_autoRotate w), (st_wireframe w); cbn [negb];
    repeat split; auto; discriminate.
Qed.

Lemma run_actions_snoc (l : list Action) (a : Action) (w : World) :
  run_actions (l ++ [a]) w = step (run_actions l w) a.
Proof. unfold run_actions. rewrite fold_left_app. reflexivity. Qed.

(** X13.  In a mounted component, a click on the button of any catalog entry
    attaches to the Mesh a new, undisposed Shape built with the parameters
    documented for that entry's key, under an identity that was not in use,
    and leaves the Shape attached before disposed exactly once. *)
Theorem catalog_click_attaches_documented_shape
    (store : gmap string string) (c : Container) (dpr : Q)
    (actions : list Action) (key : string) (e : CatalogEntry) :
  (key, e) ∈ geometries ->
  let w := run_actions actions (mount store (Some c) dpr) in
  let w' := run_actions (actions ++ [ClickGeometry key])
                        (mount store (Some c) dpr) in
  exists old new b,
    attached_shape w = Some old /\
    attached_shape w' = Some new /\
    heap w !! new = None /\
    (key, b) ∈ documented_shapes /\
    heap w' !! new = Some (OGeometry (mkGeometry b 0)) /\
    dispose_count old w = 0 /\
    dispose_count old w' = 1.
Proof.
  intros Hin. cbv zeta.
  rewrite run_actions_snoc. cbn [step]. unfold click_geometry.
  rewrite (elem_entry_of key e Hin).
  pose proof (Inv_run store c dpr actions) as HI.
  generalize dependent (run_actions actions (mount store (Some c) dpr)).
  intros w HI.
  destruct (catalog_factory key e Hin) as (b & -> & Hdoc).
  destruct (Inv_active_mesh w HI) as (m & Hact & Hm & _ & _ & (b0 & Hold) & Hlt).
  pose proof (inv_meshRef w HI) as Href.
  pose proof (inv_fresh w HI) as Hfresh.
  exists (geometry m), (next_id w), b.
  split; [unfold attached_shape; rewrite Hact; reflexivity |].
  split; [apply replaceGeometry_attached, HI |].
  split; [apply heap_fresh_lookup; [exact Hfresh | lia] |].
  split; [exact Hdoc |].
  split; [apply (replaceGeometry_new_shape b w mesh_id m Href Hm Hfresh); lia |].
  unfold dispose_count.
  rewrite (replaceGeometry_old_shape b w mesh_id m Href Hm Hfresh _ Hold), Hold.
  split; reflexivity.
Qed.

Lemma catalog_click_attaches_documented_shape_witness :
  let w := run_actions [AnimationFrame] (mount ∅ (Some (div 800 600)) 1) in
  let w' := run_actions ([AnimationFrame] ++ [ClickGeometry "Nudo"])
                        (mount ∅ (Some (div 800 600)) 1) in
  exists old new b,
    attached_shape w = Some old /\
    attached_shape w' = Some new /\
    heap w !! new = None /\
    ("Nudo", b) ∈ documented_shapes /\
    heap w' !! new = Some (OGeometry (mkGeometry b 0)) /\
    dispose_count old w = 0 /\
    dispose_count old w' = 1.
Proof.
  apply (catalog_click_attaches_documented_shape
           ∅ (div 800 600) 1 [AnimationFrame] "Nudo"
           (mkEntry "Nudo Toroidal"
                    (new_geometry (TorusKnotGeometry 1 0.3 100 16)))).
  apply list_elem_of_In. simpl. tauto.
Defined.

(** ** The guard against a renderer left by an earlier initialization *)

Lemma guard_removes (old : nat) (c : Container) (w : World) :
  rendererRef w = Some old -> container w = Some c -> old ∈ dom_children c ->
  dispose_previous_renderer w = removeChild old (dispose old w).
Proof.
  intros H1 H2 H3. destruct w. wproj. subst.
  unfold dispose_previous_renderer. wsimpl.
  rewrite bool_decide_eq_true_2 by exact H3. reflexivity.
Qed.

Lemma unmount_keeps_renderer_and_container (w : World) :
  Inv w ->
  rendererRef (unmount w) = Some renderer_id /\
  container (unmount w) = container w.
Proof. run_cleanup. split; reflexivity. Qed.

Lemma removeChild_dispose_fields (x : nat) (c : Container) (w : World) :
  container w = Some c ->
  heap (removeChild x (dispose x w)) = alter dispose_obj x (heap w) /\
  trace (removeChild x (dispose x w)) =
    trace w ++ [EvDispose x; EvRemoveChild x] /\
  container (removeChild x (dispose x w)) =
    Some (mkContainer (rect_width c) (rect_height c)
                      (filter (fun y => y <> x) (dom_children c))).
Proof.
  intros Hc. destruct w. wproj. subst. wsimpl.
  rewrite <- app_assoc. repeat split.
Qed.

(** X14.  The teardown leaves [rendererRef] pointing at the disposed
    renderer and leaves its canvas in the container.  The guard that opens
    the scene effect acts on exactly that: run on the world the teardown
    leaves, it disposes that renderer a second time and removes its canvas,
    so the container keeps the children it had before mount and no canvas
    of this component; these are its only two calls.  With no renderer in
    [rendererRef], as at the first mount, the guard does nothing. *)
Theorem guard_disposes_and_removes_old_canvas
    (store : gmap string string) (c : Container) (dpr : Q)
    (actions : list Action) :
  let w := run_actions actions (mount store (Some c) dpr) in
  let w1 := unmount w in
  let w2 := dispose_previous_renderer w1 in
  rendererRef w1 = Some renderer_id /\
  (exists c1, container w1 = Some c1 /\
              dom_children c1 = dom_children c ++ [renderer_id]) /\
  dispose_count renderer_id w1 = 1 /\
  dispose_count renderer_id w2 = 2 /\
  (exists c2, container w2 = Some c2 /\
              dom_children c2 =
                filter (fun y => y <> renderer_id) (dom_children c)) /\
  trace_since w1 w2 = [EvDispose renderer_id; EvRemoveChild renderer_id] /\
  dispose_previous_renderer (first_render store (Some c) dpr) =
    first_render store (Some c) dpr.
Proof.
  cbv zeta.
  pose proof (Inv_run store c dpr actions) as HI.
  destruct (Fixtures_run store c dpr actions)
    as [(c1 & k & Hc1 & Hkids & _ & _) _].
  generalize dependent (run_actions actions (mount store (Some c) dpr)).
  intros w HI Hc1.
  destruct (unmount_keeps_renderer_and_container w HI) as [Href Hcont].
  rewrite Hc1 in Hcont.
  assert (Hin : renderer_id ∈ dom_children c1).
  { rewrite Hkids. apply elem_of_app. right. constructor. }
  rewrite (guard_removes renderer_id c1 (unmount w) Href Hcont Hin).
  destruct (removeChild_dispose_fields renderer_id c1 (unmount w) Hcont)
    as (Hheap & Htrace & Hcont2).
  destruct (inv_renderer w HI) as (r & Hr & Hr0).
  assert (Hcount : dispose_count renderer_id (unmount w) = 1).
  { unfold dispose_count. rewrite (unmount_heap w HI).
    unfold_ids. heap_lookup. rewrite Hr. simpl. congruence. }
  split; [exact Href |].
  split; [exists c1; auto |].
  split; [exact Hcount |].
  split.
  { unfold dispose_count in *. rewrite Hheap, lookup_alter_eq.
    destruct (heap (unmount w) !! renderer_id) as [[]|];
      simpl in *; congruence. }
  split.
  { eexists. split; [exact Hcont2 |]. cbn [dom_children].
    rewrite Hkids, filter_app.
    rewrite (filter_cons_False _ renderer_id)
      by (intros H; apply H; reflexivity).
    rewrite filter_nil. apply app_nil_r. }
  split; [apply trace_since_app, Htrace |].
  reflexivity.
Qed.
